(** * fileutil: in-place editing of text files (edit.go)

    A shallow embedding of the [Editer] type of package fileutil and of its
    operations [Delete], [Comment], [CommentOut], [Replace], [ReplaceN],
    [ReplaceAtLine] and [ReplaceAtLineN], with the properties the
    specification states about them.

    The open file, its cursor and the buffered reader are explicit state; an
    operation is a function from that state to an outcome and a new state,
    and the state records the calls made on the file, so that what an
    operation reads and writes can be told.  The loops over the lines of the
    file take a bound on the number of their iterations; the properties show
    that the bound the operations give them is never reached.

    The regular expression library is outside the package: it is an
    interface ([Engine]) which the operations are parametrised by, and
    [Fragment] is an implementation of it for a small part of the RE2 syntax,
    on which the operations can be run. *)

From Stdlib.Strings Require Import String Ascii Byte.
From Stdlib Require Import List ZArith Lia Bool Arith.
Import ListNotations.

Set Implicit Arguments.

(** ** Bytes *)

Definition bytes := list byte.

(** [[]byte(s)] and [string(b)]. *)
Definition B (s : string) : bytes := list_byte_of_string s.
Definition S_ (b : bytes) : string := string_of_list_byte b.

Definition newline : byte := x0a.
Definition space : byte := x20.

(** [b[lo:hi]]. *)
Definition slice (b : bytes) (lo hi : nat) : bytes := firstn (hi - lo) (skipn lo b).

(** [make([]byte, n)] for [n >= 0]. *)
Definition zeros (n : nat) : bytes := repeat x00 n.

(** ** Machine integers: Go's [int] and [int64] are 64 bits wide *)

Definition wrap64 (z : Z) : Z := ((z + 2 ^ 63) mod 2 ^ 64 - 2 ^ 63)%Z.
Definition maxInt : Z := (2 ^ 63 - 1)%Z.

(** ** Errors and outcomes *)

(** Modelled from the spec: [errComment] is declared in a file of the
    package other than edit.go; it is the error [Comment] and [CommentOut]
    return when the configuration gives no comment character (the
    configuration error of the specification).  The other errors are those
    of the libraries. *)
Inductive error : Type :=
| errComment                 (* the configuration has no comment character *)
| EOF                        (* io.EOF *)
| EINVAL                     (* seek or truncate at a negative offset *)
| errSyntax (msg : string).  (* regexp/syntax.Error *)

Inductive outcome (A : Type) : Type :=
| Ok (a : A)        (* the call returns, with a nil error *)
| Err (e : error)   (* the call returns a non-nil error *)
| Panic             (* run-time panic: make with a negative length *)
| OutOfFuel.        (* the bound given to a loop was too small *)

Arguments Ok {A} a.
Arguments Err {A} e.
Arguments Panic {A}.
Arguments OutOfFuel {A}.

(** ** The file and the Editer *)

(** System calls made on the file, in the order they are made. *)
Inductive event : Type :=
| EvStat
| EvSeek (offset : Z)
| EvRead (n : nat)
| EvWrite (b : bytes)
| EvTruncate (size : nat).

Definition is_read (e : event) : bool :=
  match e with EvRead _ => true | _ => false end.

Definition is_write (e : event) : bool :=
  match e with EvWrite _ | EvTruncate _ => true | _ => false end.

(** An open [*os.File]: content, cursor, and the calls made so far. *)
Record File : Type := mkFile {
  data : bytes;
  offset : nat;
  log : list event
}.

Module ConfEditer.
Record t : Type := mk {
  Comment : bytes;
  Mode : Z
}.
End ConfEditer.

(** [Editer]: [file] is the handle, [buf] the unread bytes held by the
    [bufio.Reader] over it (the writer half of [ed.buf] is never used),
    [conf] the configuration, which may be nil. *)
Record Editer : Type := mkEditer {
  file : File;
  buf : bytes;
  conf : option ConfEditer.t
}.

Definition set_file (ed : Editer) (f : File) : Editer :=
  mkEditer f (buf ed) (conf ed).

Definition set_buf (ed : Editer) (b : bytes) : Editer :=
  mkEditer (file ed) b (conf ed).

(** [NewEdit] once the file is open: cursor at the start, nothing buffered. *)
Definition NewEdit (content : bytes) (c : option ConfEditer.t) : Editer :=
  mkEditer (mkFile content 0 []) [] c.

(** ** Operations as state transformers *)

Definition M (A : Type) : Type := Editer -> outcome A * Editer.

Definition ret {A} (a : A) : M A := fun ed => (Ok a, ed).

Definition throw {A} (e : error) : M A := fun ed => (Err e, ed).

Definition bind {A C} (m : M A) (k : A -> M C) : M C :=
  fun ed =>
    match m ed with
    | (Ok a, ed') => k a ed'
    | (Err e, ed') => (Err e, ed')
    | (Panic, ed') => (Panic, ed')
    | (OutOfFuel, ed') => (OutOfFuel, ed')
    end.

Notation "x <- m ;; k" := (bind m (fun x => k))
  (at level 61, m at next level, right associativity).
Notation "m ;;; k" := (bind m (fun _ => k))
  (at level 61, right associativity).

(** *** os.File *)

Definition emit (e : event) (f : File) : File :=
  mkFile (data f) (offset f) (log f ++ [e]).

(** [ed.file.Stat()], of which only [Size()] is used. *)
Definition Stat : M Z :=
  fun ed => (Ok (Z.of_nat (length (data (file ed)))),
             set_file ed (emit EvStat (file ed))).

(** [ed.file.Seek(off, io.SeekStart)]. *)
Definition Seek (off : Z) : M Z :=
  fun ed =>
    let f := emit (EvSeek off) (file ed) in
    if (off <? 0)%Z then (Err EINVAL, set_file ed f)
    else (Ok off, set_file ed (mkFile (data f) (Z.to_nat off) (log f))).

(** [ed.file.Read(b)]: fills a prefix of [b] and returns the slice with the
    number of bytes read; a read into an empty slice returns at once, and
    0 bytes into a non-empty slice is io.EOF. *)
Definition Read (b : bytes) : M (bytes * nat) :=
  fun ed =>
    let f := file ed in
    let avail := skipn (offset f) (data f) in
    let n := Nat.min (length b) (length avail) in
    let f' := emit (EvRead n) (mkFile (data f) (offset f + n) (log f)) in
    if (length b =? 0) then (Ok (b, 0), ed)
    else if (n =? 0) then (Err EOF, set_file ed f')
    else (Ok (firstn n avail ++ skipn n b, n), set_file ed f').

(** [ed.file.Write(b)] at the cursor; a gap after the end reads as zeros. *)
Definition Write (b : bytes) : M nat :=
  fun ed =>
    let f := file ed in
    let o := offset f in
    let d := firstn o (data f) ++ zeros (o - length (data f))
             ++ b ++ skipn (o + length b) (data f) in
    (Ok (length b), set_file ed (emit (EvWrite b) (mkFile d (o + length b) (log f)))).

(** [ed.file.Truncate(size)]. *)
Definition Truncate (size : Z) : M unit :=
  fun ed =>
    let f := file ed in
    if (size <? 0)%Z then (Err EINVAL, ed)
    else
      let n := Z.to_nat size in
      let d := firstn n (data f) ++ zeros (n - length (data f)) in
      (Ok tt, set_file ed (emit (EvTruncate n) (mkFile d (offset f) (log f)))).

(** [make([]byte, n)]. *)
Definition make (n : Z) : M bytes :=
  fun ed => if (n <? 0)%Z then (Panic, ed) else (Ok (zeros (Z.to_nat n)), ed).

(** *** rewrite *)

Definition rewrite (b : bytes) : M unit :=
  Seek 0 ;;;
  n <- Write b ;;
  Truncate (Z.of_nat n).

(** *** Delete *)

Definition Delete (begin end_ : Z) : M unit :=
  size <- Stat ;;
  Seek 0 ;;;
  fileData <- make begin ;;
  r <- Read fileData ;;
  let buf := fst r in
  fileData <- make (wrap64 (size - wrap64 (end_ - begin))) ;;
  Seek end_ ;;;
  r <- Read fileData ;;
  let buf := buf ++ fst r in
  rewrite buf.

(** *** bufio.Reader over the file *)

(** The part of [s] up to and including the first [delim], and the rest. *)
Fixpoint cut (delim : byte) (s : bytes) : option (bytes * bytes) :=
  match s with
  | [] => None
  | c :: s' =>
      if Byte.eqb c delim then Some ([c], s')
      else match cut delim s' with
           | Some (l, r) => Some (c :: l, r)
           | None => None
           end
  end.

(** Refill of the reader's buffer.  bufio reads the file block by block and
    [ReadBytes] gathers blocks until it meets the delimiter or the end of
    the file; the block size shows in nothing the Editer does, so a refill
    takes here all that is left of the file. *)
Definition fill : M unit :=
  fun ed =>
    let f := file ed in
    let chunk := skipn (offset f) (data f) in
    let f' := emit (EvRead (length chunk))
                   (mkFile (data f) (offset f + length chunk) (log f)) in
    (Ok tt, mkEditer f' (buf ed ++ chunk) (conf ed)).

(** [ed.buf.ReadBytes(delim)]: the bytes up to and including the delimiter
    with a nil error, or the bytes before the end of the file with io.EOF. *)
Definition ReadBytes (delim : byte) : M (bytes * option error) :=
  fun ed =>
    match cut delim (buf ed) with
    | Some (line, rest) => (Ok (line, None), set_buf ed rest)
    | None =>
        let ed1 := snd (fill ed) in
        match cut delim (buf ed1) with
        | Some (line, rest) => (Ok (line, None), set_buf ed1 rest)
        | None => (Ok (buf ed1, Some EOF), set_buf ed1 [])
        end
    end.

(** [ioutil.ReadAll(ed.buf)]. *)
Definition ReadAll : M bytes :=
  fun ed =>
    let ed1 := snd (fill ed) in
    (Ok (buf ed1), set_buf ed1 []).

(** A bound on the number of lines still to be read. *)
Definition fuel_of (ed : Editer) : nat :=
  S (length (buf ed) + length (data (file ed))).

Definition is_EOF (e : option error) : bool :=
  match e with Some EOF => true | _ => false end.

(** ** Replacement entries *)

Module Replacer.
Record t : Type := mk {
  Search : string;
  Replace : string
}.
End Replacer.

Module ReplacerAtLine.
Record t : Type := mk {
  Line : string;
  Search : string;
  Replace : string
}.
End ReplacerAtLine.

(** ** The regular expression library *)

(** What the package uses of Go's [regexp]: [Compile], [Match], and the
    successive matches of a pattern in a text, as [FindAllIndex] returns
    them: the pairs (start, end) [ReplaceAllFunc] calls its argument on. *)
Class Engine : Type := {
  Regexp : Type;
  Compile : string -> Regexp + error;
  Match : Regexp -> bytes -> bool;
  FindAllIndex : Regexp -> bytes -> list (nat * nat)
}.

(** Matches come in order, do not overlap and lie within the text. *)
Fixpoint spans_wf (lo hi : nat) (l : list (nat * nat)) : Prop :=
  match l with
  | [] => True
  | (a0, a1) :: l' => lo <= a0 /\ a0 <= a1 /\ a1 <= hi /\ spans_wf a1 hi l'
  end.

Definition engine_ok (E : Engine) : Prop :=
  forall (re : Regexp) (b : bytes), spans_wf 0 (length b) (FindAllIndex re b).

Section Edit.

Context {E : Engine}.

(** [re.ReplaceAllFunc(src, repl)]: the text between the matches is copied,
    and each match is replaced by what [repl] returns for it.  [repl] is a
    closure over variables of its caller: their values are the state [st]
    it takes and gives back. *)
Fixpoint replaceAll {St : Type} (src : bytes) (repl : bytes -> St -> bytes * St)
    (ms : list (nat * nat)) (lastMatchEnd : nat) (out : bytes) (st : St)
    : bytes * St :=
  match ms with
  | [] => (out ++ skipn lastMatchEnd src, st)
  | (a0, a1) :: ms' =>
      let out := out ++ slice src lastMatchEnd a0 in
      let (r, st') := repl (slice src a0 a1) st in
      replaceAll src repl ms' a1 (out ++ r) st'
  end.

Definition ReplaceAllFunc {St : Type} (re : Regexp) (src : bytes)
    (repl : bytes -> St -> bytes * St) (st : St) : bytes * St :=
  replaceAll src repl (FindAllIndex re src) 0 [] st.

(** The closure given to [ReplaceAllFunc] by [genReplace] and by
    [genReplaceAtLine]: it sets [isNew], and replaces while the counter
    (the variable [i], or [j]) is not zero. *)
Definition replFn (repl : bytes) (s : bytes) (st : bool * Z) : bytes * (bool * Z) :=
  let isNew := true in
  let i := snd st in
  if (i =? 0)%Z then (s, (isNew, i))
  else (repl, (isNew, wrap64 (i - 1))).

(** *** Comment *)

(** Compilation of the patterns, in order, up to the first error. *)
Fixpoint compileAll (reLine : list string) : list Regexp + error :=
  match reLine with
  | [] => inl []
  | v :: rest =>
      match Compile v with
      | inr err => inr err
      | inl re =>
          match compileAll rest with
          | inr err => inr err
          | inl res => inl (re :: res)
          end
      end
  end.

(** The inner loop of [Comment]: the first pattern that matches the line
    gets it commented, and ends the loop. *)
Fixpoint commentLine (allReSearch : list Regexp) (char : bytes) (line : bytes)
    (isNew : bool) : bytes * bool :=
  match allReSearch with
  | [] => (line, isNew)
  | v :: rest =>
      if Match v line then (char ++ line, true)
      else commentLine rest char line isNew
  end.

(** The loop over the lines. *)
Fixpoint Comment_loop (fuel : nat) (allReSearch : list Regexp) (char : bytes)
    (isNew : bool) (out : bytes) : M (bool * bytes) :=
  match fuel with
  | 0 => fun ed => (OutOfFuel, ed)
  | S fuel' =>
      r <- ReadBytes newline ;;
      if is_EOF (snd r) then ret (isNew, out)
      else
        let (line, isNew') := commentLine allReSearch char (fst r) isNew in
        Comment_loop fuel' allReSearch char isNew' (out ++ line)
  end.

Definition Comment (reLine : list string) : M unit :=
  fun ed =>
    match conf ed with
    | None => (Err errComment, ed)
    | Some c =>
        if length (ConfEditer.Comment c) =? 0 then (Err errComment, ed)
        else
          match compileAll reLine with
          | inr err => (Err err, ed)
          | inl allReSearch =>
              (Seek 0 ;;;
               let char := ConfEditer.Comment c ++ [space] in
               r <- (fun ed => Comment_loop (fuel_of ed) allReSearch char false [] ed) ;;
               if fst r then rewrite (snd r) else ret tt) ed
          end
    end.

(** *** genReplace *)

(** The loop over the entries: each is compiled when its turn comes, and
    applied to the content the entries before it have left. *)
Fixpoint genReplace_loop (r : list Replacer.t) (n : Z) (content : bytes)
    (isNew : bool) : outcome (bytes * bool) :=
  match r with
  | [] => Ok (content, isNew)
  | v :: rest =>
      match Compile (Replacer.Search v) with
      | inr err => Err err
      | inl reSearch =>
          let i := n in
          let repl := B (Replacer.Replace v) in
          let (content', st) := ReplaceAllFunc reSearch content (replFn repl) (isNew, i) in
          genReplace_loop rest n content' (fst st)
      end
  end.

Definition lift {A} (o : outcome A) : M A := fun ed => (o, ed).

Definition genReplace (r : list Replacer.t) (n : Z) : M unit :=
  if (n =? 0)%Z then ret tt
  else
    Seek 0 ;;;
    content <- ReadAll ;;
    res <- lift (genReplace_loop r n content false) ;;
    if snd res then rewrite (fst res) else ret tt.

(** *** genReplaceAtLine *)

(** The cache of compiled expressions: for each entry the line pattern, the
    search pattern and the replacement. *)
Fixpoint compileAtLine (r : list ReplacerAtLine.t)
    : list (Regexp * Regexp * bytes) + error :=
  match r with
  | [] => inl []
  | v :: rest =>
      match Compile (ReplacerAtLine.Line v) with
      | inr err => inr err
      | inl reLine =>
          match Compile (ReplacerAtLine.Search v) with
          | inr err => inr err
          | inl reSearch =>
              match compileAtLine rest with
              | inr err => inr err
              | inl res => inl ((reLine, reSearch, B (ReplacerAtLine.Replace v)) :: res)
              end
          end
      end
  end.

(** The inner loop: every entry whose line pattern matches the line, as the
    entries before it have left it, is applied to it with a counter of its
    own, set to [n]. *)
Fixpoint replaceLine (all : list (Regexp * Regexp * bytes)) (n : Z)
    (line : bytes) (isNew : bool) : bytes * bool :=
  match all with
  | [] => (line, isNew)
  | (reLine, reSearch, repl) :: rest =>
      if Match reLine line then
        let j := n in
        let (line', st) := ReplaceAllFunc reSearch line (replFn repl) (isNew, j) in
        replaceLine rest n line' (fst st)
      else replaceLine rest n line isNew
  end.

Fixpoint genReplaceAtLine_loop (fuel : nat) (all : list (Regexp * Regexp * bytes))
    (n : Z) (isNew : bool) (out : bytes) : M (bool * bytes) :=
  match fuel with
  | 0 => fun ed => (OutOfFuel, ed)
  | S fuel' =>
      r <- ReadBytes newline ;;
      if is_EOF (snd r) then ret (isNew, out)
      else
        let (line, isNew') := replaceLine all n (fst r) isNew in
        genReplaceAtLine_loop fuel' all n isNew' (out ++ line)
  end.

Definition genReplaceAtLine (r : list ReplacerAtLine.t) (n : Z) : M unit :=
  if (n =? 0)%Z then ret tt
  else
    Seek 0 ;;;
    match compileAtLine r with
    | inr err => throw err
    | inl all =>
        res <- (fun ed => genReplaceAtLine_loop (fuel_of ed) all n false [] ed) ;;
        if fst res then rewrite (snd res) else ret tt
    end.

(** *** Replace, ReplaceN, ReplaceAtLine, ReplaceAtLineN, CommentOut *)

Definition Replace (r : list Replacer.t) : M unit := genReplace r (-1).

Definition ReplaceN (r : list Replacer.t) (n : Z) : M unit := genReplace r n.

Definition ReplaceAtLine (r : list ReplacerAtLine.t) : M unit :=
  genReplaceAtLine r (-1).

Definition ReplaceAtLineN (r : list ReplacerAtLine.t) (n : Z) : M unit :=
  genReplaceAtLine r n.

(** The pattern [CommentOut] searches for in a line. *)
Definition commentOutSearch (comment : bytes) : string :=
  ("[[:space:]]*" ++ S_ comment ++ "[[:space:]]*")%string.

Definition CommentOut (reLine : list string) : M unit :=
  fun ed =>
    match conf ed with
    | None => (Err errComment, ed)
    | Some c =>
        if length (ConfEditer.Comment c) =? 0 then (Err errComment, ed)
        else
          let allSearch :=
            map (fun v => ReplacerAtLine.mk v (commentOutSearch (ConfEditer.Comment c)) EmptyString)
                reLine in
          ReplaceAtLineN allSearch 1 ed
    end.

End Edit.

(** ** An engine for a fragment of the syntax

    The patterns made of literal characters, [.], [[[:space:]]], a star
    after one of these, [^] and [$], on ASCII text, with the meaning they
    have in Go: the leftmost match, the star taking as many characters as
    the rest of the pattern allows, [.] not matching a newline, [^] and [$]
    matching at the ends of the text only.  A pattern with another
    metacharacter, which Go may accept, is rejected by this engine. *)

Module Fragment.

Inductive atom : Type :=
| Lit (c : byte)
| Any
| SpaceClass.

Inductive item : Type :=
| One (a : atom)
| Many (a : atom)
| Bol
| Eol.

Definition prog : Type := list item.

Inductive token : Type :=
| TAtom (a : atom)
| TStar
| TBol
| TEol.

Definition spaceClassName : bytes := B "[[:space:]]".

Fixpoint starts_with (pre s : bytes) : bool :=
  match pre, s with
  | [], _ => true
  | _ :: _, [] => false
  | x :: pre', y :: s' => Byte.eqb x y && starts_with pre' s'
  end.

(** Metacharacters outside the fragment. *)
Definition other_meta (c : byte) : bool :=
  existsb (Byte.eqb c) (B "\()[]{}+?|").

Fixpoint tokens (fuel : nat) (s : bytes) : list token + error :=
  match fuel with
  | 0 => inl []
  | S fuel' =>
      match s with
      | [] => inl []
      | c :: s' =>
          let more (t : token) (rest : bytes) :=
            match tokens fuel' rest with
            | inl ts => inl (t :: ts)
            | inr e => inr e
            end in
          if starts_with spaceClassName s
          then more (TAtom SpaceClass) (skipn (length spaceClassName) s)
          else if Byte.eqb c "*" then more TStar s'
          else if Byte.eqb c "^" then more TBol s'
          else if Byte.eqb c "$" then more TEol s'
          else if Byte.eqb c "." then more (TAtom Any) s'
          else if other_meta c then inr (errSyntax "outside the fragment")
          else more (TAtom (Lit c)) s'
      end
  end.

Fixpoint build (ts : list token) : prog + error :=
  match ts with
  | [] => inl []
  | TStar :: _ => inr (errSyntax "missing argument to repetition operator")
  | TAtom a :: TStar :: rest =>
      match rest with
      | TStar :: _ => inr (errSyntax "invalid nested repetition operator")
      | _ => match build rest with
             | inl p => inl (Many a :: p)
             | inr e => inr e
             end
      end
  | TAtom a :: rest =>
      match build rest with inl p => inl (One a :: p) | inr e => inr e end
  | TBol :: TStar :: _ => inr (errSyntax "outside the fragment")
  | TEol :: TStar :: _ => inr (errSyntax "outside the fragment")
  | TBol :: rest =>
      match build rest with inl p => inl (Bol :: p) | inr e => inr e end
  | TEol :: rest =>
      match build rest with inl p => inl (Eol :: p) | inr e => inr e end
  end.

Definition compile (expr : string) : prog + error :=
  match tokens (S (length (B expr))) (B expr) with
  | inl ts => build ts
  | inr e => inr e
  end.

Definition is_space (c : byte) : bool :=
  existsb (Byte.eqb c) [x09; x0a; x0b; x0c; x0d; x20].

Definition accepts (a : atom) (c : byte) : bool :=
  match a with
  | Lit x => Byte.eqb c x
  | Any => negb (Byte.eqb c newline)
  | SpaceClass => is_space c
  end.

(** The end of the match of [p] that starts at [pos], where [s] is the
    text from [pos] on: the first one a backtracking search finds. *)
Fixpoint matchHere (p : prog) (pos : nat) (s : bytes) {struct p} : option nat :=
  match p with
  | [] => Some pos
  | Bol :: r => if pos =? 0 then matchHere r pos s else None
  | Eol :: r => match s with [] => matchHere r pos s | _ :: _ => None end
  | One a :: r =>
      match s with
      | c :: s' => if accepts a c then matchHere r (S pos) s' else None
      | [] => None
      end
  | Many a :: r =>
      (fix star (pos : nat) (s : bytes) {struct s} : option nat :=
         match s with
         | c :: s' =>
             if accepts a c then
               match star (S pos) s' with
               | Some e => Some e
               | None => matchHere r pos s
               end
             else matchHere r pos s
         | [] => matchHere r pos s
         end) pos s
  end.

(** The leftmost match at or after [pos]. *)
Fixpoint search (p : prog) (pos : nat) (s : bytes) {struct s} : option (nat * nat) :=
  match matchHere p pos s with
  | Some e => Some (pos, e)
  | None =>
      match s with
      | [] => None
      | _ :: s' => search p (S pos) s'
      end
  end.

(** The loop of Go's [replaceAll]: an empty match right after the match
    before it is passed over, and the search moves on by one character
    at least. *)
Fixpoint scan (fuel : nat) (p : prog) (src : bytes) (searchPos lastMatchEnd : nat)
    : list (nat * nat) :=
  match fuel with
  | 0 => []
  | S fuel' =>
      if length src <? searchPos then []
      else
        match search p searchPos (skipn searchPos src) with
        | None => []
        | Some (a0, a1) =>
            let width := if searchPos <? length src then 1 else 0 in
            let next :=
              if a1 <? searchPos + width then searchPos + width
              else if a1 <? searchPos + 1 then searchPos + 1
              else a1 in
            let rest := scan fuel' p src next a1 in
            if (lastMatchEnd <? a1) || (a0 =? 0) then (a0, a1) :: rest else rest
        end
  end.

Definition findAll (p : prog) (src : bytes) : list (nat * nat) :=
  scan (S (S (length src))) p src 0 0.

Definition matches (p : prog) (b : bytes) : bool :=
  match search p 0 b with Some _ => true | None => false end.

#[global] Instance engine : Engine := {
  Regexp := prog;
  Compile := compile;
  Match := matches;
  FindAllIndex := findAll
}.

End Fragment.

(** ** Vocabulary of the statements

    The definitions above follow edit.go.  Those below are not part of the
    code: they say, in the words of the specification, what an operation is
    expected to leave in the file ([commented], [lineOut], [contentOut],
    [replaceUpTo]), and name what the statements speak of.  The properties
    compare the two. *)

(** The content of the file, and the calls made on it that read or
    change it. *)
Definition content (ed : Editer) : bytes := data (file ed).
Definition reads (ed : Editer) : list event := filter is_read (log (file ed)).
Definition writes (ed : Editer) : list event := filter is_write (log (file ed)).

(** The bytes the reader has still to deliver. *)
Definition pending (ed : Editer) : bytes :=
  buf ed ++ skipn (offset (file ed)) (data (file ed)).

(** The state once [b] is committed from [ed]. *)
Definition committed (ed : Editer) (b : bytes) : Editer :=
  set_file ed (mkFile b (length b)
                 (log (file ed) ++ [EvSeek 0; EvWrite b; EvTruncate (length b)])).

(** From [ed] to [ed'] the file was at most read: same content, same
    configuration, no write and no truncation. *)
Definition untouched (ed ed' : Editer) : Prop :=
  content ed' = content ed /\ conf ed' = conf ed /\ writes ed' = writes ed.

(** A line ends with the newline byte and holds no other; what follows the
    last newline of a file is not a line. *)
Definition is_line (l : bytes) : Prop :=
  exists body, l = body ++ [newline] /\ ~ In newline body.

Definition unterminated (t : bytes) : Prop := ~ In newline t.

(** A loop over lines, each changed by [f], which also updates the flag. *)
Fixpoint scanLines (f : bytes -> bool -> bytes * bool) (ls : list bytes)
    (isNew : bool) (out : bytes) : bool * bytes :=
  match ls with
  | [] => (isNew, out)
  | l :: ls' =>
      let (l', isNew') := f l isNew in
      scanLines f ls' isNew' (out ++ l')
  end.

(** The text [src] in which the matches [ms] are replaced by [repl], from
    position [last] on. *)
Fixpoint replaceSpans (src repl : bytes) (ms : list (nat * nat)) (last : nat) : bytes :=
  match ms with
  | [] => skipn last src
  | (a0, a1) :: ms' => slice src last a0 ++ repl ++ replaceSpans src repl ms' a1
  end.

(** The text [src] in which the first [k] matches of [re] are replaced. *)
Definition replaceUpTo {E : Engine} (k : nat) (re : Regexp) (repl src : bytes) : bytes :=
  replaceSpans src repl (firstn k (FindAllIndex re src)) 0.

(** The text [src] with the part from [a0] to [a1] replaced by [repl]. *)
Definition splice (src : bytes) (m : nat * nat) (repl : bytes) : bytes :=
  firstn (fst m) src ++ repl ++ skipn (snd m) src.

Section Vocabulary.

Context {E : Engine}.

Definition matchesAny (res : list Regexp) (l : bytes) : bool :=
  existsb (fun re => Match re l) res.

(** A pattern, as the caller gives it, matches a text; a pattern has a
    match to replace in a text. *)
Definition patMatches (p : string) (b : bytes) : Prop :=
  exists re, Compile p = inl re /\ Match re b = true.

Definition patFinds (p : string) (b : bytes) : Prop :=
  exists re, Compile p = inl re /\ FindAllIndex re b <> [].

(** A pattern that does not compile. *)
Definition badPattern (p : string) : Prop :=
  exists err, Compile p = inr err.

(** A line as [Comment] leaves it. *)
Definition commented (res : list Regexp) (char l : bytes) : bytes :=
  if matchesAny res l then char ++ l else l.

(** A line as the entries of a line-scoped replacement leave it: each entry
    whose line pattern matches the line, as it is by then, replaces the
    first [k] matches of its search pattern. *)
Fixpoint lineOut (all : list (Regexp * Regexp * bytes)) (k : nat) (line : bytes) : bytes :=
  match all with
  | [] => line
  | (reLine, reSearch, repl) :: rest =>
      if Match reLine line then lineOut rest k (replaceUpTo k reSearch repl line)
      else lineOut rest k line
  end.

(** Whether some entry finds a match of its search pattern in a line that
    its line pattern matches. *)
Fixpoint lineNew (all : list (Regexp * Regexp * bytes)) (k : nat) (line : bytes) : bool :=
  match all with
  | [] => false
  | (reLine, reSearch, repl) :: rest =>
      if Match reLine line
      then negb (length (FindAllIndex reSearch line) =? 0)
           || lineNew rest k (replaceUpTo k reSearch repl line)
      else lineNew rest k line
  end.

(** The content as the entries of a whole-content replacement leave it. *)
Fixpoint contentOut (all : list (Regexp * bytes)) (k : nat) (c : bytes) : bytes :=
  match all with
  | [] => c
  | (re, repl) :: rest => contentOut rest k (replaceUpTo k re repl c)
  end.

(** The entries [CommentOut] builds, once compiled. *)
Definition commentOutEntries (res : list Regexp) (reOut : Regexp)
  : list (Regexp * Regexp * bytes) :=
  map (fun re => (re, reOut, [])) res.

(** The entries of [r], once compiled. *)
Fixpoint compileEntries (r : list Replacer.t) : list (Regexp * bytes) + error :=
  match r with
  | [] => inl []
  | v :: rest =>
      match Compile (Replacer.Search v) with
      | inr err => inr err
      | inl re =>
          match compileEntries rest with
          | inr err => inr err
          | inl res => inl ((re, B (Replacer.Replace v)) :: res)
          end
      end
  end.

End Vocabulary.

(** ** Append

    The other operations of edit.go: [Append] on an open file, and the
    functions of the package that open the named file, apply one operation
    and close it. *)

(** [ed.file.Seek(off, io.SeekEnd)]; the call is recorded with the position
    it reaches. *)
Definition SeekEnd (off : Z) : M Z :=
  fun ed =>
    let f := file ed in
    let pos := (Z.of_nat (length (data f)) + off)%Z in
    let f' := emit (EvSeek pos) f in
    if (pos <? 0)%Z then (Err EINVAL, set_file ed f')
    else (Ok pos, set_file ed (mkFile (data f') (Z.to_nat pos) (log f'))).

Definition Append (b : bytes) : M unit :=
  SeekEnd 0 ;;;
  Write b ;;;
  ret tt.

Definition AppendString (s : string) : M unit := Append (B s).

(** ** The functions of the package on a named file *)

Module fileutil.

(** What a function of the package returns: the error of the operation, of
    the opening of the file, or one the system gives to [Backup] or to the
    closing of the file. *)
Inductive failure : Type :=
| ofEditer (e : error)
| ENOENT
| ofSystem (msg : string).

Inductive result : Type :=
| Done                   (* a nil error *)
| Failed (e : failure)   (* a non-nil error *)
| Crashed.               (* the operation did not return *)

(** The files, by name. *)
Definition FS : Type := string -> option bytes.

Definition store (fs : FS) (name : string) (c : bytes) : FS :=
  fun n => if String.eqb n name then Some c else fs n.

(** [ModBackup], the first flag of [ModeEdit]. *)
Definition ModBackup : Z := 1.

(** The end of every function below:
    [if err != nil { return err }; return err2]. *)
Definition finish (err : outcome unit) (err2 : option failure) : result :=
  match err with
  | Err e => Failed (ofEditer e)
  | Ok _ => match err2 with
            | Some e2 => Failed e2
            | None => Done
            end
  | Panic => Crashed
  | OutOfFuel => Crashed
  end.

Section OnFile.

Context {E : Engine}.

(** [Backup] is declared in a file of the package other than edit.go: it is
    taken as it comes, a function that changes the files and may fail.
    [closeError] is the error the system returns when the named file is
    closed, if any. *)
Variable Backup : string -> FS -> option failure * FS.
Variable closeError : string -> option failure.

(** [NewEdit]: the backup, if the configuration asks for one, then the
    opening of the file for reading and writing, which does not create it. *)
Definition NewEdit (filename : string) (conf : option ConfEditer.t) (fs : FS)
  : (Editer + failure) * FS :=
  let wanted :=
    match conf with
    | Some c => negb (Z.land (ConfEditer.Mode c) ModBackup =? 0)%Z
    | None => false
    end in
  let (err, fs1) := if wanted then Backup filename fs else (None, fs) in
  match err with
  | Some e => (inr e, fs1)
  | None =>
      match fs1 filename with
      | None => (inr ENOENT, fs1)
      | Some c => (inl (mkEditer (mkFile c 0 []) [] conf), fs1)
      end
  end.

(** [ed.Close()], on the file of that name. *)
Definition Close (filename : string) : option failure := closeError filename.

(** The file as the Editer leaves it. *)
Definition flush (fs : FS) (filename : string) (ed : Editer) : FS :=
  store fs filename (data (file ed)).

Definition CommentM (filename : string) (conf : option ConfEditer.t)
    (reLine : list string) (fs : FS) : result * FS :=
  match NewEdit filename conf fs with
  | (inr err, fs1) => (Failed err, fs1)
  | (inl ed, fs1) =>
      let (err, ed') := Comment reLine ed in
      let err2 := Close filename in
      (finish err err2, flush fs1 filename ed')
  end.

Definition CommentOutM (filename : string) (conf : option ConfEditer.t)
    (reLine : list string) (fs : FS) : result * FS :=
  match NewEdit filename conf fs with
  | (inr err, fs1) => (Failed err, fs1)
  | (inl ed, fs1) =>
      let (err, ed') := CommentOut reLine ed in
      let err2 := Close filename in
      (finish err err2, flush fs1 filename ed')
  end.

Definition Comment (filename : string) (conf : option ConfEditer.t)
    (reLine : string) : FS -> result * FS :=
  CommentM filename conf [reLine].

Definition CommentOut (filename : string) (conf : option ConfEditer.t)
    (reLine : string) : FS -> result * FS :=
  CommentOutM filename conf [reLine].

Definition Append (filename : string) (mode : Z) (b : bytes) (fs : FS)
  : result * FS :=
  match NewEdit filename (Some (ConfEditer.mk [] mode)) fs with
  | (inr err, fs1) => (Failed err, fs1)
  | (inl ed, fs1) =>
      let (err, ed') := Append b ed in
      let err2 := Close filename in
      (finish err err2, flush fs1 filename ed')
  end.

Definition AppendString (filename : string) (mode : Z) (s : string)
  : FS -> result * FS :=
  Append filename mode (B s).

Definition ReplaceN (filename : string) (conf : option ConfEditer.t)
    (r : list Replacer.t) (n : Z) (fs : FS) : result * FS :=
  match NewEdit filename conf fs with
  | (inr err, fs1) => (Failed err, fs1)
  | (inl ed, fs1) =>
      let (err, ed') := genReplace r n ed in
      let err2 := Close filename in
      (finish err err2, flush fs1 filename ed')
  end.

Definition Replace (filename : string) (conf : option ConfEditer.t)
    (r : list Replacer.t) (fs : FS) : result * FS :=
  match NewEdit filename conf fs with
  | (inr err, fs1) => (Failed err, fs1)
  | (inl ed, fs1) =>
      let (err, ed') := genReplace r (-1) ed in
      let err2 := Close filename in
      (finish err err2, flush fs1 filename ed')
  end.

Definition ReplaceAtLineN (filename : string) (conf : option ConfEditer.t)
    (r : list ReplacerAtLine.t) (n : Z) (fs : FS) : result * FS :=
  match NewEdit filename conf fs with
  | (inr err, fs1) => (Failed err, fs1)
  | (inl ed, fs1) =>
      let (err, ed') := genReplaceAtLine r n ed in
      let err2 := Close filename in
      (finish err err2, flush fs1 filename ed')
  end.

Definition ReplaceAtLine (filename : string) (conf : option ConfEditer.t)
    (r : list ReplacerAtLine.t) (fs : FS) : result * FS :=
  match NewEdit filename conf fs with
  | (inr err, fs1) => (Failed err, fs1)
  | (inl ed, fs1) =>
      let (err, ed') := genReplaceAtLine r (-1) ed in
      let err2 := Close filename in
      (finish err err2, flush fs1 filename ed')
  end.


End OnFile.

End fileutil.

(** ** More vocabulary: all the matches replaced *)

Section VocabularyAll.

Context {E : Engine}.

(** The text [src] in which every match of [re] is replaced. *)
Definition replaceEvery (re : Regexp) (repl src : bytes) : bytes :=
  replaceSpans src repl (FindAllIndex re src) 0.

(** The content in which the entries, in order, have each replaced every
    match of theirs. *)
Fixpoint contentAll (all : list (Regexp * bytes)) (c : bytes) : bytes :=
  match all with
  | [] => c
  | (re, repl) :: rest => contentAll rest (replaceEvery re repl c)
  end.

(** No entry finds more matches than a 64-bit counter can count. *)
Fixpoint countable (all : list (Regexp * bytes)) (c : bytes) : Prop :=
  match all with
  | [] => True
  | (re, repl) :: rest =>
      (Z.of_nat (length (FindAllIndex re c)) <= maxInt)%Z
      /\ countable rest (replaceEvery re repl c)
  end.

(** Whether some entry of a whole-content replacement finds a match in the
    content the entries before it have left, each replacing up to [k]
    matches. *)
Fixpoint contentNew (all : list (Regexp * bytes)) (k : nat) (c : bytes) : bool :=
  match all with
  | [] => false
  | (re, repl) :: rest =>
      negb (length (FindAllIndex re c) =? 0)
      || contentNew rest k (replaceUpTo k re repl c)
  end.

End VocabularyAll.

Section VocabularyLines.

Context {E : Engine}.

(** A line in which every entry whose line pattern matches it, as it is by
    then, has replaced every match of its search pattern. *)
Fixpoint lineAll (all : list (Regexp * Regexp * bytes)) (line : bytes) : bytes :=
  match all with
  | [] => line
  | (reLine, reSearch, repl) :: rest =>
      if Match reLine line then lineAll rest (replaceEvery reSearch repl line)
      else lineAll rest line
  end.

(** Whether some entry finds a match in the line. *)
Fixpoint lineAllNew (all : list (Regexp * Regexp * bytes)) (line : bytes) : bool :=
  match all with
  | [] => false
  | (reLine, reSearch, repl) :: rest =>
      if Match reLine line
      then negb (length (FindAllIndex reSearch line) =? 0)
           || lineAllNew rest (replaceEvery reSearch repl line)
      else lineAllNew rest line
  end.

(** No entry finds in the line more matches than a 64-bit counter counts. *)
Fixpoint lineCountable (all : list (Regexp * Regexp * bytes)) (line : bytes) : Prop :=
  match all with
  | [] => True
  | (reLine, reSearch, repl) :: rest =>
      if Match reLine line
      then (Z.of_nat (length (FindAllIndex reSearch line)) <= maxInt)%Z
           /\ lineCountable rest (replaceEvery reSearch repl line)
      else lineCountable rest line
  end.

End VocabularyLines.



(** What is common to the operations: from a reader that holds nothing,
    they return a nil error or an error, the reader holds nothing after
    them and the configuration is the same; with an error nothing was
    written. *)
Definition sound (op : M unit) (ed : Editer) : Prop :=
  exists o ed',
    op ed = (o, ed')
    /\ buf ed' = [] /\ conf ed' = conf ed
    /\ (o = Ok tt \/ exists e, o = Err e /\ untouched ed ed').

(** A step that changes neither the reader nor the configuration. *)
Definition keeps {A} (m : M A) : Prop :=
  forall ed, buf (snd (m ed)) = buf ed /\ conf (snd (m ed)) = conf ed.

(** The configuration does not ask for a backup. *)
Definition noBackup (conf : option ConfEditer.t) : Prop :=
  match conf with
  | Some c => Z.land (ConfEditer.Mode c) fileutil.ModBackup = 0%Z
  | None => True
  end.

(** For the examples: a file system with one file; a backup that copies the
    file to the name followed by a tilde; a backup that fails; a system
    that closes files without error, and one that does not. *)
Definition oneFile (name : string) (c : bytes) : fileutil.FS :=
  fileutil.store (fun _ => None) name c.

Definition copyBackup (name : string) (fs : fileutil.FS)
  : option fileutil.failure * fileutil.FS :=
  match fs name with
  | Some c => (None, fileutil.store fs (name ++ "~")%string c)
  | None => (Some fileutil.ENOENT, fs)
  end.

Definition failingBackup (name : string) (fs : fileutil.FS)
  : option fileutil.failure * fileutil.FS :=
  (Some (fileutil.ofSystem "no space left on device"), fs).

Definition closes (name : string) : option fileutil.failure := None.

Definition closeFails (name : string) : option fileutil.failure :=
  Some (fileutil.ofSystem "input/output error").

(** ** Files and configurations of the examples *)

(** [s] followed by a newline. *)
Definition line (s : string) : bytes := B s ++ [newline].

(** The configuration with the comment character [#]. *)
Definition hashConf : ConfEditer.t := ConfEditer.mk (B "#") 0.
Definition hash : option ConfEditer.t := Some hashConf.

(** The configuration with no comment character. *)
Definition blank : option ConfEditer.t := Some (ConfEditer.mk [] 0).

(** A pattern of the fragment, compiled. *)
Definition re (p : string) : Fragment.prog :=
  match Fragment.compile p with
  | inl prog => prog
  | inr _ => []
  end.

(** * Properties *)

(** ** Lists of bytes *)

Lemma slice_skipn (b : bytes) (lo hi : nat) :
  lo <= hi -> slice b lo hi ++ skipn hi b = skipn lo b.
Proof.
  intros H. unfold slice.
  rewrite <- (firstn_skipn (hi - lo) (skipn lo b)) at 2.
  f_equal. rewrite skipn_skipn. f_equal; lia.
Qed.

Lemma slice_from_0 (b : bytes) (hi : nat) : slice b 0 hi = firstn hi b.
Proof. unfold slice. rewrite Nat.sub_0_r. reflexivity. Qed.

Lemma spans_wf_weaken (lo lo' hi : nat) (ms : list (nat * nat)) :
  lo' <= lo -> spans_wf lo hi ms -> spans_wf lo' hi ms.
Proof.
  destruct ms as [|[a0 a1] ms]; simpl; [auto|].
  intros H (H0 & H1 & H2 & H3). repeat split; auto; lia.
Qed.

Lemma wrap64_small (z : Z) : (- 2 ^ 63 <= z < 2 ^ 63)%Z -> wrap64 z = z.
Proof.
  intros H. unfold wrap64. rewrite Z.mod_small; lia.
Qed.

(** ** The file *)

Lemma rewrite_commits (b : bytes) (ed : Editer) :
  rewrite b ed = (Ok tt, committed ed b).
Proof.
  unfold rewrite, bind, Seek, Write, Truncate, committed, set_file, emit.
  cbn [file buf conf data offset log Z.ltb Z.compare Z.to_nat fst snd].
  destruct (Z.ltb_spec (Z.of_nat (length b)) 0) as [H|_]; [lia|].
  rewrite Nat2Z.id. cbn [firstn Nat.sub Nat.add zeros repeat app].
  f_equal. f_equal. f_equal.
  - rewrite firstn_app, firstn_all, Nat.sub_diag. cbn [firstn].
    rewrite app_nil_r.
    replace (length b - length (b ++ skipn (length b) (data (file ed)))) with 0
      by (rewrite length_app; lia).
    cbn. apply app_nil_r.
  - rewrite <- !app_assoc. reflexivity.
Qed.

Lemma content_committed (ed : Editer) (b : bytes) : content (committed ed b) = b.
Proof. reflexivity. Qed.

Lemma filter_snoc {A} (p : A -> bool) (l : list A) (x : A) :
  filter p (l ++ [x]) = filter p l ++ (if p x then [x] else []).
Proof. rewrite filter_app. reflexivity. Qed.

(** ** The budget of a replacement *)

Section Budget.

Context {E : Engine}.

(** With a counter [k >= 0] the closure replaces the first [k] matches and
    gives the others back as they are; it sets the flag when there is a
    match at all. *)
Lemma replaceAll_budget (src repl : bytes) (ms : list (nat * nat)) :
  forall (last : nat) (out : bytes) (isNew : bool) (k : Z),
    spans_wf last (length src) ms ->
    (0 <= k <= maxInt)%Z ->
    exists k' : Z,
      replaceAll src (replFn repl) ms last out (isNew, k)
      = (out ++ replaceSpans src repl (firstn (Z.to_nat k) ms) last,
         (isNew || negb (length ms =? 0), k')).
Proof.
  induction ms as [|[a0 a1] ms IH]; intros last out isNew k Hwf Hk.
  - exists k. cbn. rewrite firstn_nil, orb_false_r. reflexivity.
  - destruct Hwf as (H0 & H1 & H2 & Hwf).
    cbn [replaceAll]. unfold replFn at 1. cbn [snd].
    destruct (Z.eqb_spec k 0) as [->|Hk0].
    + destruct (IH a1 ((out ++ slice src last a0) ++ slice src a0 a1) true 0%Z Hwf Hk)
        as [k' Hk'].
      exists k'. rewrite Hk'. cbn [Z.to_nat firstn replaceSpans length Nat.eqb negb].
      rewrite orb_true_r. cbn [orb]. f_equal.
      rewrite <- !app_assoc. f_equal.
      rewrite (slice_skipn src H1). apply slice_skipn. exact H0.
    + assert (Hk1 : (0 <= k - 1 <= maxInt)%Z) by (unfold maxInt in *; lia).
      rewrite wrap64_small by (unfold maxInt in *; lia).
      destruct (IH a1 ((out ++ slice src last a0) ++ repl) true (k - 1)%Z Hwf Hk1)
        as [k' Hk'].
      exists k'. rewrite Hk'.
      replace (Z.to_nat k) with (S (Z.to_nat (k - 1))) by lia.
      cbn [firstn replaceSpans length Nat.eqb negb].
      rewrite orb_true_r. cbn [orb]. f_equal.
      rewrite <- !app_assoc. reflexivity.
Qed.

Lemma ReplaceAllFunc_budget (re : Regexp) (src repl : bytes) (isNew : bool) (k : Z) :
  engine_ok E ->
  (0 <= k <= maxInt)%Z ->
  exists k' : Z,
    ReplaceAllFunc re src (replFn repl) (isNew, k)
    = (replaceUpTo (Z.to_nat k) re repl src,
       (isNew || negb (length (FindAllIndex re src) =? 0), k')).
Proof.
  intros Hok Hk. unfold ReplaceAllFunc, replaceUpTo.
  destruct (replaceAll_budget src repl (FindAllIndex re src) 0 [] isNew (Hok re src) Hk)
    as [k' Hk'].
  exists k'. exact Hk'.
Qed.

(** Without a match the text and the flag are as they were, whatever the
    counter. *)
Lemma ReplaceAllFunc_no_match (re : Regexp) (src repl : bytes) (isNew : bool) (k : Z) :
  FindAllIndex re src = [] ->
  ReplaceAllFunc re src (replFn repl) (isNew, k) = (src, (isNew, k)).
Proof.
  intros H. unfold ReplaceAllFunc. rewrite H. reflexivity.
Qed.

End Budget.

(** ** Reading lines *)

Lemma untouched_refl (ed : Editer) : untouched ed ed.
Proof. repeat split. Qed.

Lemma untouched_trans (ed1 ed2 ed3 : Editer) :
  untouched ed1 ed2 -> untouched ed2 ed3 -> untouched ed1 ed3.
Proof.
  unfold untouched. intros (A1 & A2 & A3) (B1 & B2 & B3).
  repeat split; congruence.
Qed.

Lemma cut_line (l rest : bytes) :
  is_line l -> cut newline (l ++ rest) = Some (l, rest).
Proof.
  intros (body & -> & Hbody). rewrite <- app_assoc.
  induction body as [|c body IH]; cbn.
  - reflexivity.
  - destruct (Byte.eqb c newline) eqn:Hc.
    + apply Byte.byte_dec_bl in Hc. exfalso. apply Hbody. left. exact Hc.
    + cbn in IH. rewrite IH; [reflexivity|]. intros H. apply Hbody. right. exact H.
Qed.

Lemma cut_unterminated (t : bytes) : unterminated t -> cut newline t = None.
Proof.
  unfold unterminated. induction t as [|c t IH]; cbn; intros H; [reflexivity|].
  destruct (Byte.eqb c newline) eqn:Hc.
  - apply Byte.byte_dec_bl in Hc. exfalso. apply H. left. exact Hc.
  - rewrite IH; [reflexivity|]. intros H'. apply H. right. exact H'.
Qed.

Lemma cut_app (d : byte) (b x l r : bytes) :
  cut d b = Some (l, r) -> cut d (b ++ x) = Some (l, r ++ x).
Proof.
  revert l r. induction b as [|c b IH]; cbn; intros l r H; [discriminate|].
  destruct (Byte.eqb c d).
  - injection H as <- <-. reflexivity.
  - destruct (cut d b) as [[l' r']|]; [|discriminate].
    injection H as <- <-. rewrite (IH l' r' eq_refl). reflexivity.
Qed.

(** After a refill the reader holds all that was pending, and the file is
    at its end. *)
Lemma fill_pending (ed : Editer) :
  let ed1 := snd (fill ed) in
  buf ed1 = pending ed
  /\ skipn (offset (file ed1)) (data (file ed1)) = []
  /\ untouched ed ed1.
Proof.
  unfold fill, pending, untouched, content, writes, emit.
  cbn [snd buf file data offset log conf].
  split; [reflexivity|]. split.
  - apply skipn_all2. rewrite length_skipn. lia.
  - repeat split. rewrite filter_snoc. cbn. apply app_nil_r.
Qed.

Lemma ReadBytes_line (ed : Editer) (l rest : bytes) :
  is_line l ->
  pending ed = l ++ rest ->
  exists ed',
    ReadBytes newline ed = (Ok (l, None), ed')
    /\ pending ed' = rest
    /\ untouched ed ed'.
Proof.
  intros Hl Hp. unfold ReadBytes.
  destruct (fill_pending ed) as (Hb & Hs & Hu). cbn zeta in Hb, Hs, Hu.
  destruct (cut newline (buf ed)) as [[l' r']|] eqn:Hc.
  - apply cut_app with (x := skipn (offset (file ed)) (data (file ed))) in Hc.
    fold (pending ed) in Hc. rewrite Hp, (cut_line rest Hl) in Hc.
    injection Hc as <- ->.
    eexists. split; [reflexivity|]. split; [reflexivity|]. repeat split.
  - rewrite Hb, Hp, (cut_line rest Hl).
    eexists. split; [reflexivity|]. split.
    + unfold pending, set_buf. cbn [buf file]. rewrite Hs. apply app_nil_r.
    + exact Hu.
Qed.

Lemma ReadBytes_EOF (ed : Editer) (t : bytes) :
  unterminated t ->
  pending ed = t ->
  exists ed',
    ReadBytes newline ed = (Ok (t, Some EOF), ed')
    /\ buf ed' = []
    /\ untouched ed ed'.
Proof.
  intros Ht Hp. unfold ReadBytes.
  destruct (fill_pending ed) as (Hb & Hs & Hu). cbn zeta in Hb, Hs, Hu.
  destruct (cut newline (buf ed)) as [[l' r']|] eqn:Hc.
  - apply cut_app with (x := skipn (offset (file ed)) (data (file ed))) in Hc.
    fold (pending ed) in Hc. rewrite Hp, (cut_unterminated Ht) in Hc. discriminate.
  - rewrite Hb, Hp, (cut_unterminated Ht).
    eexists. split; [reflexivity|]. split; [reflexivity|]. exact Hu.
Qed.

(** A loop that reads lines until the end of the file, whatever it does
    with a line: it handles the lines that end in a newline, in order, and
    stops on what follows the last newline, which it leaves out. *)
Lemma loop_lines (L : nat -> bool -> bytes -> M (bool * bytes))
    (f : bytes -> bool -> bytes * bool) :
  (forall fuel isNew out,
      L (S fuel) isNew out
      = (r <- ReadBytes newline ;;
         if is_EOF (snd r) then ret (isNew, out)
         else let (line, isNew') := f (fst r) isNew in L fuel isNew' (out ++ line))) ->
  forall (ls : list bytes) (t : bytes) (fuel : nat) (isNew : bool) (out : bytes)
         (ed : Editer),
    Forall is_line ls ->
    unterminated t ->
    pending ed = concat ls ++ t ->
    length ls < fuel ->
    exists ed',
      L fuel isNew out ed = (Ok (scanLines f ls isNew out), ed')
      /\ buf ed' = []
      /\ untouched ed ed'.
Proof.
  intros HL ls t. induction ls as [|l ls IH]; intros fuel isNew out ed Hls Ht Hp Hfuel.
  - destruct fuel as [|fuel]; [cbn in Hfuel; lia|].
    destruct (ReadBytes_EOF ed Ht Hp) as (ed' & Hr & Hb & Hu).
    exists ed'. rewrite HL. unfold bind. rewrite Hr. cbn. auto.
  - destruct fuel as [|fuel]; [cbn in Hfuel; lia|].
    inversion Hls as [|? ? Hl Hls']; subst.
    cbn [concat] in Hp. rewrite <- app_assoc in Hp.
    destruct (ReadBytes_line ed _ Hl Hp) as (ed1 & Hr & Hp1 & Hu1).
    rewrite HL. unfold bind at 1. rewrite Hr. cbn [snd fst is_EOF scanLines].
    destruct (f l isNew) as [l' isNew'].
    cbn in Hfuel.
    destruct (IH fuel isNew' (out ++ l') ed1 Hls' Ht Hp1 ltac:(lia)) as (ed' & Hr' & Hb' & Hu').
    exists ed'. split; [exact Hr'|]. split; [exact Hb'|].
    exact (untouched_trans Hu1 Hu').
Qed.

(** A file has at most as many lines as bytes. *)
Lemma lines_bound (ls : list bytes) :
  Forall is_line ls -> length ls <= length (concat ls).
Proof.
  induction 1 as [|l ls (body & -> & _) _ IH]; cbn; [lia|].
  rewrite !length_app. cbn. lia.
Qed.

(** When the line function keeps no memory of the flag, the loop is a map
    over the lines, and the flag tells whether a line made it true. *)
Lemma scanLines_map (f : bytes -> bool -> bytes * bool) (g : bytes -> bytes)
    (h : bytes -> bool) (ls : list bytes) :
  (forall l isNew, In l ls -> f l isNew = (g l, isNew || h l)) ->
  forall isNew out,
    scanLines f ls isNew out = (isNew || existsb h ls, out ++ concat (map g ls)).
Proof.
  induction ls as [|l ls IH]; intros Hf isNew out; cbn.
  - rewrite orb_false_r, app_nil_r. reflexivity.
  - rewrite (Hf l isNew (or_introl eq_refl)).
    rewrite IH by (intros; apply Hf; right; assumption).
    rewrite orb_assoc, app_assoc. reflexivity.
Qed.

(** ** The operations, run *)

(** The state after [Seek(0, io.SeekStart)]. *)
Lemma Seek_start (ed : Editer) :
  Seek 0 ed
  = (Ok 0%Z, set_file ed (mkFile (data (file ed)) 0 (log (file ed) ++ [EvSeek 0]))).
Proof. reflexivity. Qed.

Lemma Seek_start_untouched (ed : Editer) : untouched ed (snd (Seek 0 ed)).
Proof.
  unfold untouched, content, writes. cbn. rewrite filter_snoc. cbn.
  rewrite app_nil_r. repeat split.
Qed.

Section Run.

Context {E : Engine}.

Lemma commentLine_spec (res : list Regexp) (char l : bytes) (isNew : bool) :
  commentLine res char l isNew = (commented res char l, isNew || matchesAny res l).
Proof.
  unfold commented, matchesAny.
  induction res as [|v res IH]; cbn.
  - rewrite orb_false_r. reflexivity.
  - destruct (Match v l); cbn.
    + rewrite orb_true_r. reflexivity.
    + exact IH.
Qed.

(** [Comment] on a file whose lines are [ls], followed by [t] without a
    newline: the lines are commented, and committed when one of them is
    matched. *)
Lemma Comment_run (ps : list string) (res : list Regexp) (c : ConfEditer.t)
    (ls : list bytes) (t : bytes) (ed : Editer) :
  conf ed = Some c ->
  ConfEditer.Comment c <> [] ->
  compileAll ps = inl res ->
  buf ed = [] ->
  content ed = concat ls ++ t ->
  Forall is_line ls ->
  unterminated t ->
  exists ed1,
    untouched ed ed1 /\ buf ed1 = []
    /\ Comment ps ed
       = (Ok tt,
          if existsb (matchesAny res) ls
          then committed ed1 (concat (map (commented res (ConfEditer.Comment c ++ [space])) ls))
          else ed1).
Proof.
  intros Hconf Hne Hcomp Hbuf Hcont Hls Ht.
  unfold Comment. rewrite Hconf, Hcomp.
  destruct (ConfEditer.Comment c) as [|m0 m] eqn:Hm; [congruence|].
  cbn [length Nat.eqb]. unfold bind at 1. rewrite Seek_start.
  set (ed0 := set_file ed _).
  set (char := (m0 :: m) ++ [space]).
  assert (Hp : pending ed0 = concat ls ++ t).
  { unfold pending, ed0. cbn. rewrite Hbuf. exact Hcont. }
  assert (Hfuel : length ls < fuel_of ed0).
  { unfold fuel_of, ed0. cbn. fold (content ed). rewrite Hcont, length_app.
    pose proof (lines_bound Hls). lia. }
  destruct (@loop_lines (fun fuel isNew out => Comment_loop fuel res char isNew out)
              (commentLine res char) (fun _ _ _ => eq_refl)
              ls t (fuel_of ed0) false [] ed0 Hls Ht Hp Hfuel) as (ed1 & Hr & Hb & Hu).
  exists ed1. split; [|split; [exact Hb|]].
  - exact (untouched_trans (Seek_start_untouched ed) Hu).
  - unfold bind. rewrite Hr.
    rewrite (scanLines_map _ (commented res char) (matchesAny res))
      by (intros; apply commentLine_spec).
    cbn [fst snd orb app].
    destruct (existsb (matchesAny res) ls).
    + apply rewrite_commits.
    + reflexivity.
Qed.

(** [genReplaceAtLine] with [n <> 0], on the same file. *)
Lemma genReplaceAtLine_run (r : list ReplacerAtLine.t) (n : Z)
    (all : list (Regexp * Regexp * bytes)) (ls : list bytes) (t : bytes) (ed : Editer) :
  n <> 0%Z ->
  compileAtLine r = inl all ->
  buf ed = [] ->
  content ed = concat ls ++ t ->
  Forall is_line ls ->
  unterminated t ->
  exists ed1,
    untouched ed ed1 /\ buf ed1 = []
    /\ genReplaceAtLine r n ed
       = (Ok tt,
          let res := scanLines (replaceLine all n) ls false [] in
          if fst res then committed ed1 (snd res) else ed1).
Proof.
  intros Hn Hcomp Hbuf Hcont Hls Ht.
  unfold genReplaceAtLine. destruct (Z.eqb_spec n 0) as [|_]; [contradiction|].
  rewrite Hcomp. unfold bind at 1. rewrite Seek_start.
  set (ed0 := set_file ed _).
  assert (Hp : pending ed0 = concat ls ++ t).
  { unfold pending, ed0. cbn. rewrite Hbuf. exact Hcont. }
  assert (Hfuel : length ls < fuel_of ed0).
  { unfold fuel_of, ed0. cbn. fold (content ed). rewrite Hcont, length_app.
    pose proof (lines_bound Hls). lia. }
  destruct (@loop_lines (fun fuel isNew out => genReplaceAtLine_loop fuel all n isNew out)
              (replaceLine all n) (fun _ _ _ => eq_refl)
              ls t (fuel_of ed0) false [] ed0 Hls Ht Hp Hfuel) as (ed1 & Hr & Hb & Hu).
  exists ed1. split; [|split; [exact Hb|]].
  - exact (untouched_trans (Seek_start_untouched ed) Hu).
  - unfold bind. rewrite Hr. cbn zeta.
    destruct (fst (scanLines (replaceLine all n) ls false [])).
    + apply rewrite_commits.
    + reflexivity.
Qed.

(** [genReplace] with [n <> 0]: the content is read, then the entries are
    compiled and applied one after the other. *)
Lemma genReplace_run (r : list Replacer.t) (n : Z) (ed : Editer) :
  n <> 0%Z ->
  exists ed1,
    untouched ed ed1 /\ buf ed1 = []
    /\ reads ed1 = reads ed ++ [EvRead (length (content ed))]
    /\ genReplace r n ed
       = match genReplace_loop r n (buf ed ++ content ed) false with
         | Ok res => (Ok tt, if snd res then committed ed1 (fst res) else ed1)
         | Err e => (Err e, ed1)
         | Panic => (Panic, ed1)
         | OutOfFuel => (OutOfFuel, ed1)
         end.
Proof.
  intros Hn.
  unfold genReplace. destruct (Z.eqb_spec n 0) as [|_]; [contradiction|].
  unfold bind at 1. rewrite Seek_start.
  unfold bind at 1, ReadAll, fill. cbn [snd fst file buf conf set_file set_buf data offset log skipn].
  fold (content ed).
  eexists. split; [|split; [|split]]; cycle 3.
  - unfold bind at 1, lift.
    destruct (genReplace_loop r n (buf ed ++ content ed) false) as [[c' b]| | |];
      try reflexivity.
    cbn [snd fst]. destruct b; [apply rewrite_commits | reflexivity].
  - unfold untouched, content, writes, emit. cbn.
    rewrite !filter_snoc. cbn. rewrite !app_nil_r. repeat split.
  - reflexivity.
  - unfold reads, emit. cbn. rewrite !filter_snoc. cbn. rewrite app_nil_r. reflexivity.
Qed.

End Run.

(** ** The engine of the fragment *)

Lemma Fragment_matchHere_bounds (p : Fragment.prog) :
  forall (pos : nat) (s : bytes) (e : nat),
    Fragment.matchHere p pos s = Some e -> pos <= e <= pos + length s.
Proof.
  induction p as [|[a|a| |] r IH]; intros pos s e H.
  - cbn in H. injection H as <-. lia.
  - destruct s as [|c s']; cbn in H; [discriminate|].
    destruct (Fragment.accepts a c); [|discriminate].
    apply IH in H. cbn. lia.
  - revert pos e H. induction s as [|c s' IHs]; intros pos e H.
    + cbn in H. apply IH in H. exact H.
    + cbn in H. destruct (Fragment.accepts a c).
      * match type of H with
        | match ?x with _ => _ end = _ => destruct x as [e'|] eqn:Hstar
        end.
        -- injection H as <-. apply IHs in Hstar. cbn. lia.
        -- apply IH in H. exact H.
      * apply IH in H. exact H.
  - cbn in H. destruct (pos =? 0); [|discriminate]. apply IH in H. exact H.
  - destruct s as [|c s']; cbn in H; [|discriminate]. apply IH in H. exact H.
Qed.

Lemma Fragment_search_bounds (p : Fragment.prog) :
  forall (s : bytes) (pos a0 a1 : nat),
    Fragment.search p pos s = Some (a0, a1) ->
    pos <= a0 /\ a0 <= a1 /\ a1 <= pos + length s.
Proof.
  induction s as [|c s' IH]; intros pos a0 a1 H; cbn in H.
  - destruct (Fragment.matchHere p pos []) as [e|] eqn:Hm; [|discriminate].
    injection H as <- <-. apply Fragment_matchHere_bounds in Hm. cbn in *. lia.
  - destruct (Fragment.matchHere p pos (c :: s')) as [e|] eqn:Hm.
    + injection H as <- <-. apply Fragment_matchHere_bounds in Hm. cbn in *. lia.
    + apply IH in H. cbn. lia.
Qed.

Lemma Fragment_scan_wf (p : Fragment.prog) (src : bytes) :
  forall (fuel searchPos lastMatchEnd : nat),
    lastMatchEnd <= searchPos ->
    spans_wf lastMatchEnd (length src) (Fragment.scan fuel p src searchPos lastMatchEnd).
Proof.
  induction fuel as [|fuel IH]; intros searchPos lastMatchEnd Hle; cbn [Fragment.scan].
  - exact I.
  - destruct (Nat.ltb_spec (length src) searchPos) as [|Hpos]; [exact I|].
    destruct (Fragment.search p searchPos (skipn searchPos src)) as [[a0 a1]|] eqn:Hs;
      [|exact I].
    apply Fragment_search_bounds in Hs. rewrite length_skipn in Hs.
    destruct Hs as (H0 & H1 & H2).
    match goal with
    | |- spans_wf _ _ (if _ then _ :: Fragment.scan _ _ _ ?next _ else _) =>
        assert (Hnext : a1 <= next)
    end.
    { destruct (searchPos <? length src);
        destruct (Nat.ltb_spec a1 (searchPos + 1)); 
        try destruct (Nat.ltb_spec a1 (searchPos + 0)); lia. }
    specialize (IH _ a1 Hnext).
    destruct ((lastMatchEnd <? a1) || (a0 =? 0)).
    + cbn. repeat split; try lia. exact IH.
    + apply (spans_wf_weaken (lo := a1)); [lia | exact IH].
Qed.

Lemma Fragment_engine_ok : engine_ok Fragment.engine.
Proof.
  intros re b. apply Fragment_scan_wf. lia.
Qed.

(** ** Delete *)

Lemma Read_some (b : bytes) (ed : Editer) :
  let avail := skipn (offset (file ed)) (data (file ed)) in
  let n := Nat.min (length b) (length avail) in
  n <> 0 ->
  Read b ed
  = (Ok (firstn n avail ++ skipn n b, n),
     set_file ed (emit (EvRead n)
                    (mkFile (data (file ed)) (offset (file ed) + n) (log (file ed))))).
Proof.
  cbn zeta. intros Hn. unfold Read.
  destruct (Nat.eqb_spec (length b) 0) as [H0|_]; [rewrite H0 in Hn; cbn in Hn; lia|].
  destruct (Nat.eqb_spec (Nat.min (length b)
              (length (skipn (offset (file ed)) (data (file ed))))) 0) as [H0|_];
    [contradiction|].
  reflexivity.
Qed.

Lemma zeros_length (n : nat) : length (zeros n) = n.
Proof. apply repeat_length. Qed.

Lemma skipn_zeros (k n : nat) : skipn k (zeros n) = zeros (n - k).
Proof.
  revert n. induction k as [|k IH]; intros [|n]; cbn; auto.
Qed.

(** What [Delete] commits when it deletes neither from the start of the
    file nor up to its end. *)
Lemma Delete_run (ed : Editer) (b e : nat) :
  0 < b -> b <= e -> e < length (content ed) ->
  (Z.of_nat (length (content ed)) <= maxInt)%Z ->
  Delete (Z.of_nat b) (Z.of_nat e) ed
  = (Ok tt,
     committed
       (set_file ed
          (mkFile (content ed) (length (content ed))
             (log (file ed)
              ++ [EvStat; EvSeek 0; EvRead b; EvSeek (Z.of_nat e);
                  EvRead (length (content ed) - e)])))
       (firstn b (content ed) ++ skipn e (content ed) ++ zeros b)).
Proof.
  intros Hb Hbe He Hmax. unfold content in *.
  set (C := data (file ed)) in *.
  unfold Delete, Stat. unfold bind at 1. cbn [fst snd].
  unfold bind at 1. rewrite Seek_start.
  unfold bind at 1, make at 1.
  destruct (Z.ltb_spec (Z.of_nat b) 0) as [|_]; [lia|]. rewrite Nat2Z.id.
  unfold bind at 1. rewrite Read_some;
    cbn [file set_file emit data offset log skipn buf conf]; fold C;
    rewrite zeros_length; [|lia].
  rewrite Nat.min_l by lia. cbn [fst].
  rewrite skipn_zeros, Nat.sub_diag. cbn [zeros repeat]. rewrite app_nil_r.
  rewrite !wrap64_small by (unfold maxInt in *; rewrite ?wrap64_small; lia).
  unfold bind at 1, make at 1.
  destruct (Z.ltb_spec (Z.of_nat (length C) - (Z.of_nat e - Z.of_nat b)) 0) as [|_]; [lia|].
  replace (Z.to_nat (Z.of_nat (length C) - (Z.of_nat e - Z.of_nat b)))
    with (length C - e + b) by lia.
  unfold bind at 1, Seek at 1.
  destruct (Z.ltb_spec (Z.of_nat e) 0) as [|_]; [lia|]. rewrite Nat2Z.id.
  unfold bind at 1. rewrite Read_some;
    cbn [file set_file emit data offset log skipn buf conf]; fold C;
    rewrite zeros_length, length_skipn; [|lia].
  rewrite Nat.min_r by lia. cbn [fst].
  rewrite <- (length_skipn e C), firstn_all.
  rewrite skipn_zeros.
  replace (length (skipn e C) + b - length (skipn e C)) with b by lia.
  rewrite rewrite_commits. f_equal. unfold committed, set_file, emit.
  cbn [file buf conf data offset log]. rewrite length_skipn.
  replace (e + (length C - e)) with (length C) by lia.
  rewrite <- !app_assoc. reflexivity.
Qed.

(** C1 (the code departs from the claim).  [Delete(b, e)] with
    [0 < b <= e < len(C)] on a file of content [C] commits
    [C[0:b] ++ C[e:len(C)]] followed by [b] zero bytes, not
    [C[0:b] ++ C[e:len(C)]]: the second buffer is made of
    [size - (end - begin)] bytes, of which the read at [end] fills
    [size - end], and it is written whole. *)
Theorem Delete_appends_zero_bytes (ed : Editer) (b e : Z) :
  (0 < b)%Z -> (b <= e)%Z -> (e < Z.of_nat (length (content ed)))%Z ->
  (Z.of_nat (length (content ed)) <= maxInt)%Z ->
  exists ed',
    Delete b e ed = (Ok tt, ed')
    /\ content ed'
       = firstn (Z.to_nat b) (content ed) ++ skipn (Z.to_nat e) (content ed)
         ++ zeros (Z.to_nat b)
    /\ content ed'
       <> firstn (Z.to_nat b) (content ed) ++ skipn (Z.to_nat e) (content ed).
Proof.
  intros Hb Hbe He Hmax.
  rewrite <- (Z2Nat.id b), <- (Z2Nat.id e) by lia.
  rewrite Delete_run by lia.
  eexists. split; [reflexivity|]. rewrite content_committed, !Nat2Z.id.
  split; [reflexivity|].
  intros H. apply (f_equal (@length byte)) in H.
  rewrite !length_app, zeros_length in H. lia.
Qed.

Lemma Delete_appends_zero_bytes_witness :
  exists ed',
    Delete 2 4 (NewEdit (B "abcdef") None) = (Ok tt, ed')
    /\ content ed' = B "ab" ++ B "ef" ++ [x00; x00]
    /\ content ed' <> B "ab" ++ B "ef".
Proof.
  apply (@Delete_appends_zero_bytes (NewEdit (B "abcdef") None) 2%Z 4%Z);
    cbn; unfold maxInt; lia.
Defined.

(** Up to the end of the file [Delete] fails on the read at the end of the
    file, and commits nothing; from the start of the file it commits what
    follows the deleted part. *)
Example Delete_to_end :
  let r := Delete 2 6 (NewEdit (B "abcdef") None) in
  fst r = Err EOF /\ content (snd r) = B "abcdef" /\ writes (snd r) = [].
Proof. repeat split. Qed.

Example Delete_from_start :
  let r := Delete 0 4 (NewEdit (B "abcdef") None) in
  fst r = Ok tt /\ content (snd r) = B "ef".
Proof. repeat split. Qed.

(** ** The limit zero, and the missing comment character *)

Section Guards.

Context {E : Engine}.

(** C7.  With the limit [n == 0], [ReplaceN] and [ReplaceAtLineN] return a
    nil error at once: the Editer, with its file, the cursor and the list
    of the calls made on the file, is as it was; nothing was read, written
    or truncated. *)
Theorem limit_zero_returns_at_once
    (r : list Replacer.t) (rl : list ReplacerAtLine.t) (ed : Editer) :
  ReplaceN r 0 ed = (Ok tt, ed) /\ ReplaceAtLineN rl 0 ed = (Ok tt, ed).
Proof. split; reflexivity. Qed.

(** C9.  Without a configuration, or with an empty comment character,
    [Comment] and [CommentOut] return [errComment], and the Editer is as it
    was: the file was neither read nor changed. *)
Theorem no_comment_character (reLine : list string) (ed : Editer) :
  (conf ed = None
   \/ exists c, conf ed = Some c /\ length (ConfEditer.Comment c) = 0) ->
  Comment reLine ed = (Err errComment, ed)
  /\ CommentOut reLine ed = (Err errComment, ed).
Proof.
  unfold Comment, CommentOut.
  intros [-> | (c & -> & ->)]; split; reflexivity.
Qed.

End Guards.

Lemma no_comment_character_witness :
  Comment ["foo"%string] (NewEdit (line "foo") blank)
  = (Err errComment, NewEdit (line "foo") blank)
  /\ CommentOut ["foo"%string] (NewEdit (line "foo") blank)
     = (Err errComment, NewEdit (line "foo") blank).
Proof.
  apply (@no_comment_character Fragment.engine ["foo"%string] (NewEdit (line "foo") blank)).
  right. exists (ConfEditer.mk [] 0). split; reflexivity.
Defined.

(** ** Nothing matches *)

Lemma scanLines_same (f : bytes -> bool -> bytes * bool) (ls : list bytes) :
  (forall l isNew, In l ls -> f l isNew = (l, isNew)) ->
  forall isNew out, scanLines f ls isNew out = (isNew, out ++ concat ls).
Proof.
  induction ls as [|l ls IH]; intros Hf isNew out; cbn.
  - rewrite app_nil_r. reflexivity.
  - rewrite (Hf l isNew (or_introl eq_refl)).
    rewrite IH by (intros; apply Hf; right; assumption).
    rewrite app_assoc. reflexivity.
Qed.

Section NoMatch.

Context {E : Engine}.

Lemma compileAll_In (ps : list string) (res : list Regexp) :
  compileAll ps = inl res ->
  forall re, In re res -> exists p, In p ps /\ Compile p = inl re.
Proof.
  revert res. induction ps as [|p ps IH]; cbn; intros res H re Hre.
  - injection H as <-. destruct Hre.
  - destruct (Compile p) as [re0|] eqn:Hp; [|discriminate].
    destruct (compileAll ps) as [res0|]; [|discriminate].
    injection H as <-. destruct Hre as [<-|Hre].
    + exists p. auto.
    + destruct (IH res0 eq_refl re Hre) as (q & Hq & Hc). exists q. auto.
Qed.

Lemma compileAtLine_In (r : list ReplacerAtLine.t) (all : list (Regexp * Regexp * bytes)) :
  compileAtLine r = inl all ->
  forall reLine reSearch repl,
    In (reLine, reSearch, repl) all ->
    exists v, In v r
              /\ Compile (ReplacerAtLine.Line v) = inl reLine
              /\ Compile (ReplacerAtLine.Search v) = inl reSearch
              /\ repl = B (ReplacerAtLine.Replace v).
Proof.
  revert all. induction r as [|v r IH]; cbn; intros all H reLine reSearch repl Hin.
  - injection H as <-. destruct Hin.
  - destruct (Compile (ReplacerAtLine.Line v)) as [l0|] eqn:Hl; [|discriminate].
    destruct (Compile (ReplacerAtLine.Search v)) as [s0|] eqn:Hs; [|discriminate].
    destruct (compileAtLine r) as [all0|]; [|discriminate].
    injection H as <-. destruct Hin as [Heq|Hin].
    + injection Heq as <- <- <-. exists v. auto.
    + destruct (IH all0 eq_refl _ _ _ Hin) as (w & Hw & H1 & H2 & H3).
      exists w. auto.
Qed.

Lemma genReplace_loop_no_match (r : list Replacer.t) (n : Z) (c : bytes) :
  (forall v, In v r -> ~ patFinds (Replacer.Search v) c) ->
  genReplace_loop r n c false = Ok (c, false)
  \/ exists e, genReplace_loop r n c false = Err e.
Proof.
  induction r as [|v r IH]; intros Hno; cbn.
  - left. reflexivity.
  - destruct (Compile (Replacer.Search v)) as [re|err] eqn:Hc.
    + assert (Hnil : FindAllIndex re c = []).
      { destruct (FindAllIndex re c) eqn:Hf; [reflexivity|].
        exfalso. apply (Hno v (or_introl eq_refl)). exists re. split; congruence. }
      rewrite ReplaceAllFunc_no_match by exact Hnil. cbn [fst].
      apply IH. intros w Hw. apply Hno. right. exact Hw.
    + right. exists err. reflexivity.
Qed.

Lemma replaceLine_no_match (all : list (Regexp * Regexp * bytes)) (n : Z)
    (l : bytes) (isNew : bool) :
  (forall reLine reSearch repl,
      In (reLine, reSearch, repl) all ->
      Match reLine l = true -> FindAllIndex reSearch l = []) ->
  replaceLine all n l isNew = (l, isNew).
Proof.
  induction all as [|[[reLine reSearch] repl] all IH]; intros Hno; cbn.
  - reflexivity.
  - assert (IH' : replaceLine all n l isNew = (l, isNew)).
    { apply IH. intros a b c Hin Hm. exact (Hno a b c (or_intror Hin) Hm). }
    destruct (Match reLine l) eqn:Hm; [|exact IH'].
    rewrite ReplaceAllFunc_no_match by exact (Hno _ _ _ (or_introl eq_refl) Hm).
    exact IH'.
Qed.

Lemma genReplace_no_match (r : list Replacer.t) (n : Z) (ed : Editer) :
  buf ed = [] ->
  (forall v, In v r -> ~ patFinds (Replacer.Search v) (content ed)) ->
  untouched ed (snd (genReplace r n ed)).
Proof.
  intros Hbuf Hno. destruct (Z.eq_dec n 0) as [->|Hn]; [apply untouched_refl|].
  destruct (@genReplace_run _ r n ed Hn) as (ed1 & Hu & _ & _ & ->).
  rewrite Hbuf. cbn [app].
  destruct (@genReplace_loop_no_match r n (content ed) Hno) as [-> | (e & ->)]; exact Hu.
Qed.

Lemma genReplaceAtLine_no_match (r : list ReplacerAtLine.t) (n : Z)
    (ls : list bytes) (t : bytes) (ed : Editer) :
  buf ed = [] ->
  content ed = concat ls ++ t ->
  Forall is_line ls ->
  unterminated t ->
  (forall v l, In v r -> In l ls ->
               patMatches (ReplacerAtLine.Line v) l ->
               ~ patFinds (ReplacerAtLine.Search v) l) ->
  untouched ed (snd (genReplaceAtLine r n ed)).
Proof.
  intros Hbuf Hcont Hls Ht Hno.
  destruct (Z.eq_dec n 0) as [->|Hn]; [apply untouched_refl|].
  destruct (compileAtLine r) as [all|err] eqn:Hcomp.
  - destruct (@genReplaceAtLine_run _ r n all ls t ed Hn Hcomp Hbuf Hcont Hls Ht) as (ed1 & Hu & _ & ->).
    rewrite scanLines_same; [exact Hu|].
    intros l isNew Hl. apply replaceLine_no_match.
    intros reLine reSearch repl Hin Hm.
    destruct (@compileAtLine_In r all Hcomp _ _ _ Hin) as (v & Hv & H1 & H2 & _).
    destruct (FindAllIndex reSearch l) eqn:Hf; [reflexivity|].
    exfalso. apply (Hno v l Hv Hl).
    + exists reLine. auto.
    + exists reSearch. split; congruence.
  - unfold genReplaceAtLine. destruct (Z.eqb_spec n 0) as [|_]; [contradiction|].
    rewrite Hcomp. apply Seek_start_untouched.
Qed.

Lemma Comment_no_match (ps : list string) (ls : list bytes) (t : bytes) (ed : Editer) :
  buf ed = [] ->
  content ed = concat ls ++ t ->
  Forall is_line ls ->
  unterminated t ->
  (forall p l, In p ps -> In l ls -> ~ patMatches p l) ->
  untouched ed (snd (Comment ps ed)).
Proof.
  intros Hbuf Hcont Hls Ht Hno.
  destruct (conf ed) as [c|] eqn:Hconf;
    [|unfold Comment; rewrite Hconf; apply untouched_refl].
  destruct (ConfEditer.Comment c) as [|m0 m] eqn:Hm;
    [unfold Comment; rewrite Hconf, Hm; apply untouched_refl|].
  destruct (compileAll ps) as [res|err] eqn:Hcomp;
    [|unfold Comment; rewrite Hconf, Hm, Hcomp; apply untouched_refl].
  assert (Hne : ConfEditer.Comment c <> []) by (rewrite Hm; discriminate).
  destruct (@Comment_run _ ps res c ls t ed Hconf Hne Hcomp Hbuf Hcont Hls Ht) as (ed1 & Hu & _ & ->).
  replace (existsb (matchesAny res) ls) with false; [exact Hu|].
  symmetry. apply not_true_is_false. intros Hex.
  apply existsb_exists in Hex. destruct Hex as (l & Hl & Hany).
  apply existsb_exists in Hany. destruct Hany as (re & Hre & Hmatch).
  destruct (@compileAll_In ps res Hcomp re Hre) as (p & Hp & Hc).
  apply (Hno p l Hp Hl). exists re. auto.
Qed.

Lemma CommentOut_no_match (ps : list string) (ls : list bytes) (t : bytes) (ed : Editer) :
  buf ed = [] ->
  content ed = concat ls ++ t ->
  Forall is_line ls ->
  unterminated t ->
  (forall p l, In p ps -> In l ls -> ~ patMatches p l) ->
  untouched ed (snd (CommentOut ps ed)).
Proof.
  intros Hbuf Hcont Hls Ht Hno. unfold CommentOut.
  destruct (conf ed) as [c|]; [|apply untouched_refl].
  destruct (length (ConfEditer.Comment c) =? 0); [apply untouched_refl|].
  apply (@genReplaceAtLine_no_match _ 1%Z ls t ed Hbuf Hcont Hls Ht).
  intros v l Hv Hl Hm. apply in_map_iff in Hv. destruct Hv as (p & <- & Hp).
  exfalso. exact (Hno p l Hp Hl Hm).
Qed.

(** C6.  A call of [Replace], [ReplaceN], [ReplaceAtLine], [ReplaceAtLineN],
    [Comment] or [CommentOut] in which no pattern matches commits nothing,
    whatever it returns: the content of the file is the same, and no write
    and no truncation was made.  For the whole-content operations no search
    pattern has a match in the content; for the line-scoped ones no search
    pattern has a match in a line that its line pattern matches; for
    [Comment] and [CommentOut] no pattern matches a line. *)
Theorem no_match_no_commit (ls : list bytes) (t : bytes) (ed : Editer) :
  buf ed = [] ->
  content ed = concat ls ++ t ->
  Forall is_line ls ->
  unterminated t ->
  (forall (r : list Replacer.t) (n : Z),
      (forall v, In v r -> ~ patFinds (Replacer.Search v) (content ed)) ->
      untouched ed (snd (Replace r ed)) /\ untouched ed (snd (ReplaceN r n ed)))
  /\ (forall (r : list ReplacerAtLine.t) (n : Z),
         (forall v l, In v r -> In l (ls ++ [t]) ->
                      patMatches (ReplacerAtLine.Line v) l ->
                      ~ patFinds (ReplacerAtLine.Search v) l) ->
         untouched ed (snd (ReplaceAtLine r ed))
         /\ untouched ed (snd (ReplaceAtLineN r n ed)))
  /\ (forall (reLine : list string),
         (forall p l, In p reLine -> In l (ls ++ [t]) -> ~ patMatches p l) ->
         untouched ed (snd (Comment reLine ed))
         /\ untouched ed (snd (CommentOut reLine ed))).
Proof.
  intros Hbuf Hcont Hls Ht. split; [|split].
  - intros r n Hno. split; apply genReplace_no_match; assumption.
  - intros r n Hno.
    assert (Hno' : forall v l, In v r -> In l ls ->
                               patMatches (ReplacerAtLine.Line v) l ->
                               ~ patFinds (ReplacerAtLine.Search v) l).
    { intros v l Hv Hl. apply Hno; [exact Hv | apply in_or_app; left; exact Hl]. }
    split; apply (@genReplaceAtLine_no_match r _ ls t ed Hbuf Hcont Hls Ht Hno').
  - intros ps Hno.
    assert (Hno' : forall p l, In p ps -> In l ls -> ~ patMatches p l).
    { intros p l Hp Hl. apply Hno; [exact Hp | apply in_or_app; left; exact Hl]. }
    split.
    + apply (@Comment_no_match ps ls t ed Hbuf Hcont Hls Ht Hno').
    + apply (@CommentOut_no_match ps ls t ed Hbuf Hcont Hls Ht Hno').
Qed.

End NoMatch.

(** ** A pattern does not compile *)

Section PatternError.

Context {E : Engine}.

Lemma compileAll_bad (ps : list string) :
  (exists p, In p ps /\ badPattern p) -> exists e, compileAll ps = inr e.
Proof.
  induction ps as [|p ps IH]; intros (q & Hq & err & Hbad); [destruct Hq|].
  cbn. destruct (Compile p) as [re|e] eqn:Hp; [|exists e; reflexivity].
  destruct Hq as [->|Hq]; [congruence|].
  destruct IH as (e & ->); [exists q; split; [exact Hq | exists err; exact Hbad]|].
  exists e. reflexivity.
Qed.

Lemma compileAtLine_bad (r : list ReplacerAtLine.t) :
  (exists v, In v r /\ (badPattern (ReplacerAtLine.Line v)
                        \/ badPattern (ReplacerAtLine.Search v))) ->
  exists e, compileAtLine r = inr e.
Proof.
  induction r as [|v r IH]; intros (w & Hw & Hbad); [destruct Hw|].
  cbn. destruct (Compile (ReplacerAtLine.Line v)) as [reLine|e] eqn:Hl;
    [|exists e; reflexivity].
  destruct (Compile (ReplacerAtLine.Search v)) as [reSearch|e] eqn:Hs;
    [|exists e; reflexivity].
  destruct Hw as [->|Hw].
  - destruct Hbad as [(err & Hb)|(err & Hb)]; congruence.
  - destruct IH as (e & ->); [exists w; auto|]. exists e. reflexivity.
Qed.

Lemma genReplace_loop_bad (r : list Replacer.t) (n : Z) :
  (exists v, In v r /\ badPattern (Replacer.Search v)) ->
  forall (c : bytes) (isNew : bool), exists e, genReplace_loop r n c isNew = Err e.
Proof.
  induction r as [|v r IH]; intros (w & Hw & err & Hbad) c isNew; [destruct Hw|].
  cbn. destruct (Compile (Replacer.Search v)) as [re|e] eqn:Hc;
    [|exists e; reflexivity].
  destruct Hw as [->|Hw]; [congruence|].
  destruct (ReplaceAllFunc re c (replFn (B (Replacer.Replace v))) (isNew, n)) as [c' st].
  apply IH. exists w. split; [exact Hw | exists err; exact Hbad].
Qed.

Lemma genReplace_bad (r : list Replacer.t) (n : Z) (ed : Editer) :
  n <> 0%Z ->
  (exists v, In v r /\ badPattern (Replacer.Search v)) ->
  exists e ed', genReplace r n ed = (Err e, ed') /\ untouched ed ed'.
Proof.
  intros Hn Hbad.
  destruct (@genReplace_run _ r n ed Hn) as (ed1 & Hu & _ & _ & ->).
  destruct (@genReplace_loop_bad r n Hbad (buf ed ++ content ed) false) as (e & ->).
  exists e, ed1. split; [reflexivity | exact Hu].
Qed.

Lemma genReplaceAtLine_bad (r : list ReplacerAtLine.t) (n : Z) (ed : Editer) :
  n <> 0%Z ->
  (exists v, In v r /\ (badPattern (ReplacerAtLine.Line v)
                        \/ badPattern (ReplacerAtLine.Search v))) ->
  exists e ed',
    genReplaceAtLine r n ed = (Err e, ed') /\ untouched ed ed' /\ reads ed' = reads ed.
Proof.
  intros Hn Hbad. destruct (@compileAtLine_bad r Hbad) as (e & He).
  unfold genReplaceAtLine. destruct (Z.eqb_spec n 0) as [|_]; [contradiction|].
  rewrite He. exists e. eexists. split; [reflexivity|]. split.
  - apply Seek_start_untouched.
  - unfold reads. cbn. rewrite filter_snoc. cbn. apply app_nil_r.
Qed.

(** C3 (amended).  A pattern that does not compile makes [Replace],
    [ReplaceAtLine], [Comment] and [CommentOut], and [ReplaceN] and
    [ReplaceAtLineN] with [n <> 0], return an error and commit nothing: the
    content of the file is the same, no write and no truncation was made.
    The line-scoped operations, [Comment] and [CommentOut] fail before
    anything is read from the file. *)
Theorem pattern_error_commits_nothing (ed : Editer) :
  (forall (r : list Replacer.t) (n : Z),
      n <> 0%Z ->
      (exists v, In v r /\ badPattern (Replacer.Search v)) ->
      (exists e ed', Replace r ed = (Err e, ed') /\ untouched ed ed')
      /\ (exists e ed', ReplaceN r n ed = (Err e, ed') /\ untouched ed ed'))
  /\ (forall (r : list ReplacerAtLine.t) (n : Z),
         n <> 0%Z ->
         (exists v, In v r /\ (badPattern (ReplacerAtLine.Line v)
                               \/ badPattern (ReplacerAtLine.Search v))) ->
         (exists e ed', ReplaceAtLine r ed = (Err e, ed')
                        /\ untouched ed ed' /\ reads ed' = reads ed)
         /\ (exists e ed', ReplaceAtLineN r n ed = (Err e, ed')
                           /\ untouched ed ed' /\ reads ed' = reads ed))
  /\ (forall (reLine : list string),
         (exists p, In p reLine /\ badPattern p) ->
         (exists e, Comment reLine ed = (Err e, ed))
         /\ (exists e ed', CommentOut reLine ed = (Err e, ed')
                           /\ untouched ed ed' /\ reads ed' = reads ed)).
Proof.
  split; [|split].
  - intros r n Hn Hbad. split; apply genReplace_bad; [discriminate| | |]; assumption.
  - intros r n Hn Hbad. split; apply genReplaceAtLine_bad; [discriminate| | |]; assumption.
  - intros ps Hbad. split.
    + unfold Comment. destruct (conf ed) as [c|]; [|exists errComment; reflexivity].
      destruct (length (ConfEditer.Comment c) =? 0); [exists errComment; reflexivity|].
      destruct (@compileAll_bad ps Hbad) as (e & ->). exists e. reflexivity.
    + unfold CommentOut.
      destruct (conf ed) as [c|];
        [|exists errComment, ed; repeat split].
      destruct (length (ConfEditer.Comment c) =? 0);
        [exists errComment, ed; repeat split|].
      apply genReplaceAtLine_bad; [discriminate|].
      destruct Hbad as (p & Hp & Hb).
      eexists. split; [apply in_map; exact Hp|]. left. exact Hb.
Qed.

End PatternError.

(** ** The limit of a replacement *)

Section Limit.

Context {E : Engine}.

Lemma replaceUpTo_no_match (k : nat) (re : Regexp) (repl src : bytes) :
  FindAllIndex re src = [] -> replaceUpTo k re repl src = src.
Proof.
  intros H. unfold replaceUpTo. rewrite H, firstn_nil. reflexivity.
Qed.

(** With the limit 1 the first match alone is replaced. *)
Lemma replaceUpTo_first (re : Regexp) (repl src : bytes) (m : nat * nat)
    (ms : list (nat * nat)) :
  FindAllIndex re src = m :: ms -> replaceUpTo 1 re repl src = splice src m repl.
Proof.
  intros H. unfold replaceUpTo, splice. rewrite H. destruct m as [a0 a1].
  cbn [firstn replaceSpans fst snd]. rewrite slice_from_0. reflexivity.
Qed.

Lemma length_zero_nil {A} (l : list A) : (length l =? 0) = true -> l = [].
Proof. destruct l; [reflexivity | discriminate]. Qed.

(** The entries of [genReplace], each with a counter of its own. *)
Lemma genReplace_loop_budget (r : list Replacer.t) (n : Z) :
  engine_ok E ->
  (0 < n <= maxInt)%Z ->
  forall (all : list (Regexp * bytes)) (c : bytes) (isNew : bool),
    compileEntries r = inl all ->
    exists b : bool,
      genReplace_loop r n c isNew = Ok (contentOut all (Z.to_nat n) c, b)
      /\ (b = false -> isNew = false /\ contentOut all (Z.to_nat n) c = c).
Proof.
  intros Hok Hn. induction r as [|v r IH]; intros all c isNew Hcomp; cbn in Hcomp.
  - injection Hcomp as <-. exists isNew. cbn. auto.
  - cbn [genReplace_loop].
    destruct (Compile (Replacer.Search v)) as [re|] eqn:Hc; [|discriminate].
    destruct (compileEntries r) as [all0|] eqn:Hr; [|discriminate].
    injection Hcomp as <-.
    destruct (@ReplaceAllFunc_budget _ re c (B (Replacer.Replace v)) isNew n Hok
                ltac:(lia)) as (k' & ->).
    cbn [fst contentOut].
    destruct (IH all0 (replaceUpTo (Z.to_nat n) re (B (Replacer.Replace v)) c)
                (isNew || negb (length (FindAllIndex re c) =? 0)) eq_refl)
      as (b & Hb & Hfalse).
    exists b. split; [exact Hb|].
    intros ->. destruct (Hfalse eq_refl) as (Hor & Hout).
    apply orb_false_elim in Hor. destruct Hor as (-> & Hlen).
    apply negb_false_iff, length_zero_nil in Hlen.
    split; [reflexivity|]. rewrite Hout. apply replaceUpTo_no_match. exact Hlen.
Qed.

Lemma genReplace_budget (r : list Replacer.t) (all : list (Regexp * bytes))
    (n : Z) (ed : Editer) :
  engine_ok E ->
  (0 < n <= maxInt)%Z ->
  buf ed = [] ->
  compileEntries r = inl all ->
  exists ed',
    genReplace r n ed = (Ok tt, ed')
    /\ content ed' = contentOut all (Z.to_nat n) (content ed).
Proof.
  intros Hok Hn Hbuf Hcomp.
  destruct (@genReplace_run _ r n ed ltac:(lia)) as (ed1 & (Hu & _) & _ & _ & ->).
  rewrite Hbuf. cbn [app].
  destruct (@genReplace_loop_budget r n Hok Hn all (content ed) false Hcomp)
    as (b & -> & Hfalse).
  cbn [fst snd]. destruct b.
  - eexists. split; [reflexivity|]. apply content_committed.
  - exists ed1. split; [reflexivity|]. rewrite Hu.
    symmetry. apply (Hfalse eq_refl).
Qed.

(** C4.  [ReplaceN] with a limit [n > 0] gives each entry a budget of its
    own: the entries are applied in order, each to the content the entries
    before it have left, and each replaces the first [n] matches of its
    pattern there (all of them when there are fewer).  With two entries
    that match three times each and [n = 1], the first match of each entry
    is replaced and no other: two replacements in all. *)
Theorem ReplaceN_limit_per_entry (r : list Replacer.t) (all : list (Regexp * bytes))
    (n : Z) (ed : Editer) :
  engine_ok E ->
  (0 < n <= maxInt)%Z ->
  buf ed = [] ->
  compileEntries r = inl all ->
  (exists ed',
      ReplaceN r n ed = (Ok tt, ed')
      /\ content ed' = contentOut all (Z.to_nat n) (content ed))
  /\ (forall re1 repl1 re2 repl2 m1 m2 m3 p1 p2 p3,
         all = [(re1, repl1); (re2, repl2)] ->
         n = 1%Z ->
         FindAllIndex re1 (content ed) = [m1; m2; m3] ->
         FindAllIndex re2 (splice (content ed) m1 repl1) = [p1; p2; p3] ->
         exists ed',
           ReplaceN r n ed = (Ok tt, ed')
           /\ content ed' = splice (splice (content ed) m1 repl1) p1 repl2).
Proof.
  intros Hok Hn Hbuf Hcomp.
  destruct (@genReplace_budget r all n ed Hok Hn Hbuf Hcomp) as (ed' & Hrun & Hcont).
  split.
  - exists ed'. split; assumption.
  - intros re1 repl1 re2 repl2 m1 m2 m3 p1 p2 p3 -> -> H1 H2.
    exists ed'. split; [exact Hrun|]. rewrite Hcont.
    cbn [contentOut]. change (Z.to_nat 1) with 1.
    rewrite (@replaceUpTo_first re1 repl1 _ _ _ H1), (@replaceUpTo_first re2 repl2 _ _ _ H2).
    reflexivity.
Qed.

(** The entries of [genReplaceAtLine] on a line, each with a counter of its
    own. *)
Lemma replaceLine_budget (n : Z) (all : list (Regexp * Regexp * bytes)) :
  engine_ok E ->
  (0 < n <= maxInt)%Z ->
  forall (l : bytes) (isNew : bool),
    replaceLine all n l isNew
    = (lineOut all (Z.to_nat n) l, isNew || lineNew all (Z.to_nat n) l).
Proof.
  intros Hok Hn. induction all as [|[[reLine reSearch] repl] all IH]; intros l isNew.
  - cbn. rewrite orb_false_r. reflexivity.
  - cbn [replaceLine lineOut lineNew]. destruct (Match reLine l); [|apply IH].
    destruct (@ReplaceAllFunc_budget _ reSearch l repl isNew n Hok ltac:(lia))
      as (k' & ->).
    cbn [fst]. rewrite IH, orb_assoc. reflexivity.
Qed.

(** A line in which no entry finds a match is left as it is. *)
Lemma lineOut_unchanged (all : list (Regexp * Regexp * bytes)) (k : nat) :
  forall l, lineNew all k l = false -> lineOut all k l = l.
Proof.
  induction all as [|[[reLine reSearch] repl] all IH]; intros l H; cbn in *.
  - reflexivity.
  - destruct (Match reLine l); [|apply IH; exact H].
    apply orb_false_elim in H. destruct H as (Hlen & H).
    apply negb_false_iff, length_zero_nil in Hlen.
    rewrite (@replaceUpTo_no_match k reSearch repl l Hlen) in *. apply IH. exact H.
Qed.

Lemma genReplaceAtLine_budget (r : list ReplacerAtLine.t)
    (all : list (Regexp * Regexp * bytes)) (n : Z) (ls : list bytes) (t : bytes)
    (ed : Editer) :
  engine_ok E ->
  (0 < n <= maxInt)%Z ->
  buf ed = [] ->
  compileAtLine r = inl all ->
  content ed = concat ls ++ t ->
  Forall is_line ls ->
  unterminated t ->
  exists ed',
    genReplaceAtLine r n ed = (Ok tt, ed')
    /\ buf ed' = [] /\ conf ed' = conf ed
    /\ content ed'
       = if existsb (lineNew all (Z.to_nat n)) ls
         then concat (map (lineOut all (Z.to_nat n)) ls)
         else content ed.
Proof.
  intros Hok Hn Hbuf Hcomp Hcont Hls Ht.
  destruct (@genReplaceAtLine_run _ r n all ls t ed ltac:(lia) Hcomp Hbuf Hcont Hls Ht)
    as (ed1 & (Hu & Hconf & _) & Hb & ->).
  rewrite (scanLines_map _ (lineOut all (Z.to_nat n)) (lineNew all (Z.to_nat n)))
    by (intros; apply replaceLine_budget; assumption).
  cbn [fst snd orb app].
  destruct (existsb (lineNew all (Z.to_nat n)) ls).
  - eexists. split; [reflexivity|]. repeat split; assumption.
  - exists ed1. repeat split; assumption.
Qed.

End Limit.

(** ** The lines of the file *)

Section Lines.

Context {E : Engine}.

Lemma Comment_content (ps : list string) (res : list Regexp) (c : ConfEditer.t)
    (ls : list bytes) (t : bytes) (ed : Editer) :
  conf ed = Some c ->
  ConfEditer.Comment c <> [] ->
  compileAll ps = inl res ->
  buf ed = [] ->
  content ed = concat ls ++ t ->
  Forall is_line ls ->
  unterminated t ->
  exists ed',
    Comment ps ed = (Ok tt, ed')
    /\ buf ed' = [] /\ conf ed' = conf ed
    /\ content ed'
       = if existsb (matchesAny res) ls
         then concat (map (commented res (ConfEditer.Comment c ++ [space])) ls)
         else content ed.
Proof.
  intros Hconf Hne Hcomp Hbuf Hcont Hls Ht.
  destruct (@Comment_run _ ps res c ls t ed Hconf Hne Hcomp Hbuf Hcont Hls Ht)
    as (ed1 & (Hu & Hc & _) & Hb & ->).
  destruct (existsb (matchesAny res) ls).
  - eexists. split; [reflexivity|]. repeat split; assumption.
  - exists ed1. repeat split; assumption.
Qed.

(** C2 (the code departs from the claim).  [Comment], [ReplaceAtLine] and
    [ReplaceAtLineN] read the file line by line, a line ending with the
    newline byte; what follows the last newline, [t] below, is read and
    then left aside, for the loop ends on io.EOF before it does anything
    with the bytes read: no pattern is applied to [t], and [t] is not in
    the content that is committed. *)
Theorem last_line_without_newline_is_left_out (ls : list bytes) (t : bytes)
    (ed : Editer) :
  buf ed = [] ->
  content ed = concat ls ++ t ->
  Forall is_line ls ->
  unterminated t ->
  (forall (reLine : list string) (res : list Regexp) (c : ConfEditer.t),
      conf ed = Some c ->
      ConfEditer.Comment c <> [] ->
      compileAll reLine = inl res ->
      exists ed',
        Comment reLine ed = (Ok tt, ed')
        /\ content ed'
           = if existsb (matchesAny res) ls
             then concat (map (commented res (ConfEditer.Comment c ++ [space])) ls)
             else content ed)
  /\ (forall (r : list ReplacerAtLine.t) (all : list (Regexp * Regexp * bytes)) (n : Z),
         n <> 0%Z ->
         compileAtLine r = inl all ->
         exists ed',
           ReplaceAtLineN r n ed = (Ok tt, ed')
           /\ content ed'
              = let res := scanLines (replaceLine all n) ls false [] in
                if fst res then snd res else content ed)
  /\ (forall (r : list ReplacerAtLine.t) (all : list (Regexp * Regexp * bytes)),
         compileAtLine r = inl all ->
         exists ed',
           ReplaceAtLine r ed = (Ok tt, ed')
           /\ content ed'
              = let res := scanLines (replaceLine all (-1)) ls false [] in
                if fst res then snd res else content ed).
Proof.
  intros Hbuf Hcont Hls Ht.
  assert (HN : forall (r : list ReplacerAtLine.t) (all : list (Regexp * Regexp * bytes))
                      (n : Z),
             n <> 0%Z ->
             compileAtLine r = inl all ->
             exists ed',
               genReplaceAtLine r n ed = (Ok tt, ed')
               /\ content ed'
                  = let res := scanLines (replaceLine all n) ls false [] in
                    if fst res then snd res else content ed).
  { intros r all n Hn Hcomp.
    destruct (@genReplaceAtLine_run _ r n all ls t ed Hn Hcomp Hbuf Hcont Hls Ht)
      as (ed1 & (Hu & _) & _ & Hrun).
    eexists. split; [exact Hrun|]. cbn zeta.
    destruct (fst (scanLines (replaceLine all n) ls false [])).
    + apply content_committed.
    + exact Hu. }
  split; [|split].
  - intros ps res c Hconf Hne Hcomp.
    destruct (@Comment_content ps res c ls t ed Hconf Hne Hcomp Hbuf Hcont Hls Ht)
      as (ed' & Hrun & _ & _ & Hc).
    exists ed'. split; assumption.
  - exact HN.
  - intros r all. apply HN. discriminate.
Qed.

(** C5 (the code departs from the claim on a last line without newline).
    [ReplaceAtLineN] with a limit [n > 0] gives each entry a budget of its
    own in each line: in a line that ends with a newline, every entry whose
    line pattern matches the line, as the entries before it have left it,
    replaces the first [n] matches of its search pattern.  What follows the
    last newline is not such a line: nothing is replaced in it, and it is
    not in the content that is committed. *)
Theorem ReplaceAtLineN_limit_per_line (r : list ReplacerAtLine.t)
    (all : list (Regexp * Regexp * bytes)) (n : Z) (ls : list bytes) (t : bytes)
    (ed : Editer) :
  engine_ok E ->
  (0 < n <= maxInt)%Z ->
  buf ed = [] ->
  compileAtLine r = inl all ->
  content ed = concat ls ++ t ->
  Forall is_line ls ->
  unterminated t ->
  exists ed',
    ReplaceAtLineN r n ed = (Ok tt, ed')
    /\ content ed'
       = if existsb (lineNew all (Z.to_nat n)) ls
         then concat (map (lineOut all (Z.to_nat n)) ls)
         else content ed.
Proof.
  intros Hok Hn Hbuf Hcomp Hcont Hls Ht.
  destruct (@genReplaceAtLine_budget _ r all n ls t ed Hok Hn Hbuf Hcomp Hcont Hls Ht)
    as (ed' & Hrun & _ & _ & Hc).
  exists ed'. split; assumption.
Qed.

Lemma commented_is_line (res : list Regexp) (char l : bytes) :
  ~ In newline char -> is_line l -> is_line (commented res char l).
Proof.
  intros Hchar Hl. unfold commented. destruct (matchesAny res l); [|exact Hl].
  destruct Hl as (body & -> & Hbody). exists (char ++ body). split.
  - apply app_assoc.
  - intros H. apply in_app_or in H. tauto.
Qed.

Lemma commented_again (res : list Regexp) (char : bytes) (ls : list bytes) :
  existsb (matchesAny res) (map (commented res char) ls) = false ->
  map (fun l => commented res char (commented res char l)) ls
  = map (commented res char) ls.
Proof.
  induction ls as [|l ls IH]; cbn; intros H; [reflexivity|].
  apply orb_false_elim in H. destruct H as (Hl & Hls).
  rewrite (IH Hls). f_equal. unfold commented at 1. rewrite Hl. reflexivity.
Qed.

(** C10 (the code departs from the claim on a last line without newline).
    [Comment] puts the comment character and a space before every line
    that ends with a newline and that a pattern matches, whatever the line
    begins with; called twice, it puts them twice before the lines that a
    pattern matches both times.  What follows the last newline is never
    commented. *)
Theorem Comment_twice (reLine : list string) (res : list Regexp) (c : ConfEditer.t)
    (ls : list bytes) (t : bytes) (ed : Editer) :
  conf ed = Some c ->
  ConfEditer.Comment c <> [] ->
  ~ In newline (ConfEditer.Comment c) ->
  compileAll reLine = inl res ->
  buf ed = [] ->
  content ed = concat ls ++ t ->
  Forall is_line ls ->
  unterminated t ->
  let char := ConfEditer.Comment c ++ [space] in
  (exists ed',
      Comment reLine ed = (Ok tt, ed')
      /\ content ed'
         = if existsb (matchesAny res) ls
           then concat (map (commented res char) ls)
           else content ed)
  /\ (exists ed',
         (Comment reLine ;;; Comment reLine) ed = (Ok tt, ed')
         /\ content ed'
            = if existsb (matchesAny res) ls
              then concat (map (fun l => commented res char (commented res char l)) ls)
              else content ed).
Proof.
  intros Hconf Hne Hnl Hcomp Hbuf Hcont Hls Ht char.
  destruct (@Comment_content reLine res c ls t ed Hconf Hne Hcomp Hbuf Hcont Hls Ht)
    as (ed1 & Hrun1 & Hb1 & Hc1 & Hcont1).
  split; [exists ed1; split; assumption|].
  unfold bind. rewrite Hrun1. rewrite <- Hc1 in Hconf.
  fold char in Hcont1.
  destruct (existsb (matchesAny res) ls) eqn:Hany.
  - assert (Hchar : ~ In newline char).
    { unfold char. intros H. apply in_app_or in H. destruct H as [H|[H|[]]].
      - exact (Hnl H).
      - discriminate H. }
    assert (Hls1 : Forall is_line (map (commented res char) ls)).
    { apply Forall_map. revert Hls. apply Forall_impl.
      intros l. apply commented_is_line. exact Hchar. }
    assert (Hcont1' : content ed1 = concat (map (commented res char) ls) ++ []).
    { rewrite app_nil_r. exact Hcont1. }
    destruct (@Comment_content reLine res c _ [] ed1 Hconf Hne Hcomp Hb1 Hcont1' Hls1
                (fun H => H))
      as (ed2 & Hrun2 & _ & _ & Hcont2).
    exists ed2. split; [exact Hrun2|]. rewrite Hcont2. fold char.
    destruct (existsb (matchesAny res) (map (commented res char) ls)) eqn:Hany2.
    + rewrite map_map. reflexivity.
    + rewrite Hcont1, (commented_again _ _ _ Hany2). reflexivity.
  - rewrite <- Hcont1 in Hcont.
    destruct (@Comment_content reLine res c ls t ed1 Hconf Hne Hcomp Hb1 Hcont Hls Ht)
      as (ed2 & Hrun2 & _ & _ & Hcont2).
    exists ed2. split; [exact Hrun2|]. rewrite Hcont2, Hany. exact Hcont1.
Qed.

End Lines.

(** ** Comment, then CommentOut *)

Lemma map_unchanged {A} (h : A -> bool) (g : A -> A) (ls : list A) :
  existsb h ls = false -> (forall l, h l = false -> g l = l) -> map g ls = ls.
Proof.
  intros H Hg. induction ls as [|l ls IH]; cbn in *; [reflexivity|].
  apply orb_false_elim in H. destruct H as (Hl & Hls).
  rewrite (Hg l Hl), (IH Hls). reflexivity.
Qed.

Section CommentOut.

Context {E : Engine}.

Lemma compileAtLine_commentOut (ps : list string) (res : list Regexp)
    (search : string) (reOut : Regexp) :
  compileAll ps = inl res ->
  Compile search = inl reOut ->
  compileAtLine (map (fun v => ReplacerAtLine.mk v search EmptyString) ps)
  = inl (commentOutEntries res reOut).
Proof.
  intros Hcomp Hs. revert res Hcomp.
  induction ps as [|p ps IH]; cbn; intros res Hcomp.
  - injection Hcomp as <-. reflexivity.
  - destruct (Compile p) as [re|]; [|discriminate].
    destruct (compileAll ps) as [res0|]; [|discriminate].
    injection Hcomp as <-. rewrite Hs, (IH res0 eq_refl). reflexivity.
Qed.

Lemma commentOut_not_matched (res : list Regexp) (reOut : Regexp) (k : nat) (l : bytes) :
  matchesAny res l = false -> lineNew (commentOutEntries res reOut) k l = false.
Proof.
  unfold matchesAny. induction res as [|re res IH]; cbn; intros H; [reflexivity|].
  apply orb_false_elim in H. destruct H as (-> & H). apply IH. exact H.
Qed.

Lemma commentOut_no_marker (res : list Regexp) (reOut : Regexp) (k : nat) (l : bytes) :
  FindAllIndex reOut l = [] -> lineNew (commentOutEntries res reOut) k l = false.
Proof.
  intros H. induction res as [|re res IH]; cbn; [reflexivity|].
  destruct (Match re l); [|exact IH].
  rewrite (@replaceUpTo_no_match _ k reOut [] l H), H. exact IH.
Qed.

(** On a commented line the first entry whose pattern matches the line
    takes the comment character away, and the entries after it find
    nothing to take away. *)
Lemma commentOut_commented (res : list Regexp) (reOut : Regexp) (char l : bytes)
    (rest : list (nat * nat)) :
  matchesAny res (char ++ l) = true ->
  FindAllIndex reOut (char ++ l) = (0, length char) :: rest ->
  FindAllIndex reOut l = [] ->
  lineOut (commentOutEntries res reOut) 1 (char ++ l) = l.
Proof.
  intros Hany Hfirst Hnone. unfold matchesAny in Hany.
  induction res as [|re res IH]; [discriminate|].
  unfold commentOutEntries in *. cbn [map lineOut existsb] in *.
  destruct (Match re (char ++ l)).
  - rewrite (@replaceUpTo_first _ reOut [] _ _ _ Hfirst).
    unfold splice. cbn [fst snd firstn app].
    rewrite skipn_app, skipn_all, Nat.sub_diag. cbn [skipn app].
    apply lineOut_unchanged. apply commentOut_no_marker. exact Hnone.
  - apply IH. exact Hany.
Qed.

(** C8 (amended).  On a file whose lines all end with a newline, with a
    comment character that is not empty, holds no newline, and whose
    pattern in [CommentOut] compiles, [Comment] followed by [CommentOut]
    with the same patterns gives back the content byte for byte, provided
    that for every line that a pattern matches: a pattern still matches the
    line once commented; the first match of the pattern of [CommentOut] in
    the commented line is the comment character and the space put before
    it, no more; and that pattern has no match in the line itself. *)
Theorem Comment_then_CommentOut (reLine : list string) (res : list Regexp)
    (reOut : Regexp) (c : ConfEditer.t) (ls : list bytes) (ed : Editer) :
  engine_ok E ->
  conf ed = Some c ->
  ConfEditer.Comment c <> [] ->
  ~ In newline (ConfEditer.Comment c) ->
  compileAll reLine = inl res ->
  Compile (commentOutSearch (ConfEditer.Comment c)) = inl reOut ->
  buf ed = [] ->
  content ed = concat ls ->
  Forall is_line ls ->
  (forall l, In l ls -> matchesAny res l = true ->
     let cl := (ConfEditer.Comment c ++ [space]) ++ l in
     matchesAny res cl = true
     /\ (exists rest,
            FindAllIndex reOut cl = (0, length (ConfEditer.Comment c) + 1) :: rest)
     /\ FindAllIndex reOut l = []) ->
  exists ed',
    (Comment reLine ;;; CommentOut reLine) ed = (Ok tt, ed')
    /\ content ed' = content ed.
Proof.
  intros Hok Hconf Hne Hnl Hcomp Hout Hbuf Hcont Hls Hclean.
  set (char := ConfEditer.Comment c ++ [space]) in *.
  assert (Hcont0 : content ed = concat ls ++ []) by (rewrite app_nil_r; exact Hcont).
  destruct (@Comment_content _ reLine res c ls [] ed Hconf Hne Hcomp Hbuf Hcont0 Hls
              (fun H => H))
    as (ed1 & Hrun1 & Hb1 & Hc1 & Hcont1).
  fold char in Hcont1.
  assert (Hcont1' : content ed1 = concat (map (commented res char) ls) ++ []).
  { rewrite app_nil_r, Hcont1.
    destruct (existsb (matchesAny res) ls) eqn:Hany; [reflexivity|].
    rewrite Hcont. f_equal. symmetry.
    apply (map_unchanged _ _ _ Hany). intros l Hl. unfold commented. rewrite Hl.
    reflexivity. }
  assert (Hchar : ~ In newline char).
  { unfold char. intros H. apply in_app_or in H. destruct H as [H|[H|[]]].
    - exact (Hnl H).
    - discriminate H. }
  assert (Hls1 : Forall is_line (map (commented res char) ls)).
  { apply Forall_map. revert Hls. apply Forall_impl.
    intros l. apply commented_is_line. exact Hchar. }
  unfold bind. rewrite Hrun1. unfold CommentOut. rewrite Hc1, Hconf.
  destruct (Nat.eqb_spec (length (ConfEditer.Comment c)) 0) as [H0|_];
    [apply length_zero_iff_nil in H0; contradiction|].
  destruct (@genReplaceAtLine_budget _ _ (commentOutEntries res reOut) 1%Z
              (map (commented res char) ls) [] ed1 Hok
              ltac:(unfold maxInt; lia) Hb1
              (compileAtLine_commentOut _ _ Hcomp Hout) Hcont1' Hls1 (fun H => H))
    as (ed2 & Hrun2 & _ & _ & Hcont2).
  exists ed2. split; [exact Hrun2|].
  change (Z.to_nat 1) with 1 in Hcont2.
  assert (Hback : map (lineOut (commentOutEntries res reOut) 1)
                      (map (commented res char) ls) = ls).
  { rewrite map_map. rewrite <- (map_id ls) at 2. apply map_ext_in.
    intros l Hl. unfold commented.
    destruct (matchesAny res l) eqn:Hany.
    - destruct (Hclean l Hl Hany) as (H1 & (rest & H2) & H3).
      apply (@commentOut_commented res reOut char l rest H1); [|exact H3].
      rewrite H2. unfold char. rewrite length_app. reflexivity.
    - apply lineOut_unchanged, commentOut_not_matched. exact Hany. }
  rewrite Hcont2.
  destruct (existsb (lineNew (commentOutEntries res reOut) 1)
              (map (commented res char) ls)) eqn:Hnew.
  - rewrite Hback. symmetry. exact Hcont.
  - rewrite app_nil_r in Hcont1'. rewrite Hcont1', Hcont. f_equal.
    rewrite <- Hback at 2. symmetry.
    apply (map_unchanged _ _ _ Hnew). apply lineOut_unchanged.
Qed.

End CommentOut.

(** ** The operations on files, with the engine of the fragment *)

Ltac lines_ok :=
  repeat constructor;
  match goal with
  | |- is_line _ => eexists; split; [reflexivity | cbn; intuition discriminate]
  end.

Ltac no_newline := unfold unterminated; cbn; intuition discriminate.

Lemma last_line_without_newline_is_left_out_witness :
  (exists ed',
      Comment ["foo"%string] (NewEdit (line "foo" ++ B "bar") hash) = (Ok tt, ed')
      /\ content ed' = line "# foo"
      /\ content ed' <> line "# foo" ++ B "bar")
  /\ (exists ed',
         Comment ["bar"%string] (NewEdit (line "foo" ++ B "bar") hash) = (Ok tt, ed')
         /\ content ed' = line "foo" ++ B "bar"
         /\ content ed' <> line "foo" ++ B "# bar")
  /\ (exists ed',
         ReplaceAtLineN [ReplacerAtLine.mk "o" "o" "0"] 1
           (NewEdit (line "foo" ++ B "bar") hash) = (Ok tt, ed')
         /\ content ed' = line "f0o"
         /\ content ed' <> line "f0o" ++ B "bar").
Proof.
  destruct (@last_line_without_newline_is_left_out Fragment.engine
              [line "foo"] (B "bar") (NewEdit (line "foo" ++ B "bar") hash)
              eq_refl eq_refl ltac:(lines_ok) ltac:(no_newline)) as (HC & HR & _).
  split; [|split].
  - destruct (HC ["foo"%string] [re "foo"] hashConf eq_refl ltac:(discriminate) eq_refl)
      as (ed' & Hrun & Hc).
    exists ed'. split; [exact Hrun | rewrite Hc; split; [reflexivity | discriminate]].
  - destruct (HC ["bar"%string] [re "bar"] hashConf eq_refl ltac:(discriminate) eq_refl)
      as (ed' & Hrun & Hc).
    exists ed'. split; [exact Hrun | rewrite Hc; split; [reflexivity | discriminate]].
  - destruct (HR [ReplacerAtLine.mk "o" "o" "0"] [(re "o", re "o", B "0")] 1%Z
                ltac:(discriminate) eq_refl)
      as (ed' & Hrun & Hc).
    exists ed'. split; [exact Hrun | rewrite Hc; split; [reflexivity | discriminate]].
Defined.

(** The same, seen on the whole state: the call reads the seven bytes of
    the file, reads again and meets the end of the file, and writes the
    six bytes of the commented line. *)
Example Comment_drops_last_line :
  Comment ["foo"%string] (NewEdit (line "foo" ++ B "bar") hash)
  = (Ok tt,
     mkEditer
       (mkFile (line "# foo") 6
          [EvSeek 0; EvRead 7; EvRead 0; EvSeek 0; EvWrite (line "# foo"); EvTruncate 6])
       [] hash).
Proof. reflexivity. Qed.

Lemma ReplaceAtLineN_limit_per_line_witness :
  exists ed',
    ReplaceAtLineN [ReplacerAtLine.mk "a" "a" "b"] 2
      (NewEdit (line "aaa" ++ B "aaa") hash) = (Ok tt, ed')
    /\ content ed' = line "bba"
    /\ content ed' <> line "bba" ++ B "bba".
Proof.
  destruct (@ReplaceAtLineN_limit_per_line Fragment.engine
              [ReplacerAtLine.mk "a" "a" "b"] [(re "a", re "a", B "b")] 2%Z
              [line "aaa"] (B "aaa") (NewEdit (line "aaa" ++ B "aaa") hash)
              Fragment_engine_ok ltac:(unfold maxInt; lia) eq_refl eq_refl eq_refl
              ltac:(lines_ok) ltac:(no_newline))
    as (ed' & Hrun & Hc).
  exists ed'. split; [exact Hrun | rewrite Hc; split; [reflexivity | discriminate]].
Defined.

(** With the two lines ended by a newline, two matches are replaced in
    each: the example of the specification, and its scenario. *)
Example ReplaceAtLineN_two_lines :
  content (snd (ReplaceAtLineN [ReplacerAtLine.mk "a" "a" "b"] 2
                  (NewEdit (line "aaa" ++ line "aaa") hash)))
  = line "bba" ++ line "bba".
Proof. reflexivity. Qed.

Example ReplaceAtLineN_scenario :
  content (snd (ReplaceAtLineN [ReplacerAtLine.mk "foo" "o" "0"] 1
                  (NewEdit (line "foo bar" ++ line "foo baz") hash)))
  = line "f0o bar" ++ line "f0o baz".
Proof. reflexivity. Qed.

Lemma Comment_twice_witness :
  (exists ed',
      Comment ["foo"%string] (NewEdit (B "foo") hash) = (Ok tt, ed')
      /\ content ed' = B "foo"
      /\ content ed' <> B "# foo")
  /\ (exists ed',
         (Comment ["foo"%string] ;;; Comment ["foo"%string]) (NewEdit (B "foo") hash)
         = (Ok tt, ed')
         /\ content ed' = B "foo"
         /\ content ed' <> B "# # foo").
Proof.
  destruct (@Comment_twice Fragment.engine ["foo"%string] [re "foo"] hashConf
              [] (B "foo") (NewEdit (B "foo") hash)
              eq_refl ltac:(discriminate) ltac:(cbn; intuition discriminate)
              eq_refl eq_refl eq_refl ltac:(constructor) ltac:(no_newline))
    as ((ed1 & Hrun1 & Hc1) & (ed2 & Hrun2 & Hc2)).
  split.
  - exists ed1. split; [exact Hrun1 | rewrite Hc1; split; [reflexivity | discriminate]].
  - exists ed2. split; [exact Hrun2 | rewrite Hc2; split; [reflexivity | discriminate]].
Defined.

(** On a line ended by a newline the second call comments the line again. *)
Example Comment_twice_on_a_line :
  content (snd ((Comment ["foo"%string] ;;; Comment ["foo"%string])
                  (NewEdit (line "foo") hash)))
  = line "# # foo".
Proof. reflexivity. Qed.

Lemma ReplaceN_limit_per_entry_witness :
  exists ed',
    ReplaceN [Replacer.mk "a" "X"; Replacer.mk "b" "Y"] 1
      (NewEdit (B "a b a b a b") hash) = (Ok tt, ed')
    /\ content ed' = B "X Y a b a b".
Proof.
  destruct (@ReplaceN_limit_per_entry Fragment.engine
              [Replacer.mk "a" "X"; Replacer.mk "b" "Y"]
              [(re "a", B "X"); (re "b", B "Y")] 1%Z
              (NewEdit (B "a b a b a b") hash)
              Fragment_engine_ok ltac:(unfold maxInt; lia) eq_refl eq_refl)
    as (_ & Hex).
  destruct (Hex (re "a") (B "X") (re "b") (B "Y")
              (0, 1) (4, 5) (8, 9) (2, 3) (6, 7) (10, 11)
              eq_refl eq_refl eq_refl eq_refl)
    as (ed' & Hrun & Hc).
  exists ed'. split; [exact Hrun | rewrite Hc; reflexivity].
Defined.

Lemma no_match_no_commit_witness :
  untouched (NewEdit (line "foo" ++ line "bar") hash)
    (snd (Replace [Replacer.mk "baz" "x"] (NewEdit (line "foo" ++ line "bar") hash)))
  /\ untouched (NewEdit (line "foo" ++ line "bar") hash)
       (snd (ReplaceAtLineN [ReplacerAtLine.mk "foo" "x" "y"] 2
               (NewEdit (line "foo" ++ line "bar") hash)))
  /\ untouched (NewEdit (line "foo" ++ line "bar") hash)
       (snd (Comment ["baz"%string] (NewEdit (line "foo" ++ line "bar") hash)))
  /\ untouched (NewEdit (line "foo" ++ line "bar") hash)
       (snd (CommentOut ["baz"%string] (NewEdit (line "foo" ++ line "bar") hash))).
Proof.
  destruct (@no_match_no_commit Fragment.engine [line "foo"; line "bar"] []
              (NewEdit (line "foo" ++ line "bar") hash)
              eq_refl eq_refl ltac:(lines_ok) ltac:(no_newline))
    as (HR & HL & HC).
  split; [|split].
  - apply (HR [Replacer.mk "baz" "x"] 1%Z).
    intros v [<-|[]] (r & Hr & Hf). injection Hr as <-. apply Hf. reflexivity.
  - apply (HL [ReplacerAtLine.mk "foo" "x" "y"] 2%Z).
    intros v l [<-|[]] Hl _ (r & Hr & Hf). injection Hr as <-. apply Hf.
    destruct Hl as [<-|[<-|[<-|[]]]]; reflexivity.
  - apply (HC ["baz"%string]).
    intros p l [<-|[]] Hl (r & Hr & Hm). injection Hr as <-.
    destruct Hl as [<-|[<-|[<-|[]]]]; discriminate Hm.
Defined.

(** C3 (counterexample).  The pattern [*] does not compile.  [Replace] with
    it fails after the three bytes of the file have been read, not before;
    and [ReplaceN] with it and the limit 0 does not fail. *)
Lemma pattern_error_after_read :
  Compile "*" = inr (errSyntax "missing argument to repetition operator")
  /\ fst (Replace [Replacer.mk "*" "x"] (NewEdit (B "abc") hash))
     = Err (errSyntax "missing argument to repetition operator")
  /\ reads (snd (Replace [Replacer.mk "*" "x"] (NewEdit (B "abc") hash))) = [EvRead 3]
  /\ reads (NewEdit (B "abc") hash) = []
  /\ ReplaceN [Replacer.mk "*" "x"] 0 (NewEdit (B "abc") hash)
     = (Ok tt, NewEdit (B "abc") hash).
Proof. repeat split. Qed.

Lemma bad_star : badPattern (E := Fragment.engine) "*".
Proof. eexists. reflexivity. Qed.

Lemma pattern_error_commits_nothing_witness :
  (exists e ed',
      Replace [Replacer.mk "o" "0"; Replacer.mk "*" "x"] (NewEdit (line "foo") hash)
      = (Err e, ed')
      /\ untouched (NewEdit (line "foo") hash) ed')
  /\ (exists e ed',
         ReplaceAtLine [ReplacerAtLine.mk "foo" "*" "x"] (NewEdit (line "foo") hash)
         = (Err e, ed')
         /\ untouched (NewEdit (line "foo") hash) ed'
         /\ reads ed' = reads (NewEdit (line "foo") hash))
  /\ (exists e,
         Comment ["*"%string] (NewEdit (line "foo") hash)
         = (Err e, NewEdit (line "foo") hash))
  /\ (exists e ed',
         CommentOut ["*"%string] (NewEdit (line "foo") hash) = (Err e, ed')
         /\ untouched (NewEdit (line "foo") hash) ed'
         /\ reads ed' = reads (NewEdit (line "foo") hash)).
Proof.
  destruct (@pattern_error_commits_nothing Fragment.engine (NewEdit (line "foo") hash))
    as (HR & HL & HC).
  split; [|split].
  - apply (HR [Replacer.mk "o" "0"; Replacer.mk "*" "x"] 1%Z); [discriminate|].
    exists (Replacer.mk "*" "x"). split; [right; left; reflexivity | exact bad_star].
  - apply (HL [ReplacerAtLine.mk "foo" "*" "x"] 1%Z); [discriminate|].
    exists (ReplacerAtLine.mk "foo" "*" "x").
    split; [left; reflexivity | right; exact bad_star].
  - apply (HC ["*"%string]).
    exists "*"%string. split; [left; reflexivity | exact bad_star].
Defined.

(** C8 (counterexample).  The line [foo] holds neither the comment
    character nor a space, and the pattern [^foo] matches it; [Comment]
    makes it [# foo], which [^foo] does not match, so that [CommentOut]
    leaves it commented. *)
Lemma CommentOut_misses_anchored_pattern :
  Match (re "^foo") (line "foo") = true
  /\ FindAllIndex (re (commentOutSearch (B "#"))) (line "foo") = []
  /\ (Comment ["^foo"%string] ;;; CommentOut ["^foo"%string]) (NewEdit (line "foo") hash)
     = (Ok tt,
        mkEditer
          (mkFile (line "# foo") 6
             [EvSeek 0; EvRead 4; EvRead 0; EvSeek 0; EvWrite (line "# foo");
              EvTruncate 6; EvSeek 0; EvRead 6; EvRead 0])
          [] hash)
  /\ line "# foo" <> line "foo".
Proof. repeat split. discriminate. Qed.

Lemma Comment_then_CommentOut_witness :
  exists ed',
    (Comment ["foo"%string] ;;; CommentOut ["foo"%string])
      (NewEdit (line "foo" ++ line "bar") hash) = (Ok tt, ed')
    /\ content ed' = line "foo" ++ line "bar".
Proof.
  apply (@Comment_then_CommentOut Fragment.engine ["foo"%string] [re "foo"]
           (re (commentOutSearch (B "#"))) hashConf [line "foo"; line "bar"]
           (NewEdit (line "foo" ++ line "bar") hash)
           Fragment_engine_ok eq_refl ltac:(discriminate)
           ltac:(cbn; intuition discriminate) eq_refl eq_refl eq_refl eq_refl
           ltac:(lines_ok)).
  intros l [<-|[<-|[]]] Hm.
  - split; [reflexivity|]. split; [exists []; reflexivity | reflexivity].
  - discriminate Hm.
Defined.

(** * Further properties *)

(** ** The commit *)

(** X1.  [rewrite] makes the content of the file exactly the bytes it is
    given, whatever the file held before, longer or shorter, and wherever
    the cursor was: one write of the whole content and one truncation to
    its length, after which the cursor is at the end. *)
Theorem rewrite_replaces_content (b : bytes) (ed : Editer) :
  exists ed',
    rewrite b ed = (Ok tt, ed')
    /\ content ed' = b
    /\ offset (file ed') = length b
    /\ buf ed' = buf ed /\ conf ed' = conf ed
    /\ writes ed' = writes ed ++ [EvWrite b; EvTruncate (length b)]
    /\ reads ed' = reads ed.
Proof.
  exists (committed ed b). split; [apply rewrite_commits|].
  unfold writes, reads, committed. cbn. rewrite !filter_app. cbn.
  rewrite app_nil_r. repeat split.
Qed.

(** ** Delete, at the ends of the file *)

Lemma Read_nothing (ed : Editer) : Read [] ed = (Ok ([], 0), ed).
Proof. reflexivity. Qed.

(** X2.  From the start of the file [Delete] does remove the bytes up to
    [end]: [Delete(0, e)] with [e <= len(C)] commits [C[e:]]. *)
Theorem Delete_from_start_removes (ed : Editer) (e : Z) :
  (0 <= e <= Z.of_nat (length (content ed)))%Z ->
  (Z.of_nat (length (content ed)) <= maxInt)%Z ->
  exists ed',
    Delete 0 e ed = (Ok tt, ed')
    /\ content ed' = skipn (Z.to_nat e) (content ed).
Proof.
  intros He Hmax. unfold content in *. set (C := data (file ed)) in *.
  unfold Delete, Stat. unfold bind at 1. cbn [fst snd].
  unfold bind at 1. rewrite Seek_start.
  unfold bind at 1, make at 1. cbn [Z.ltb Z.compare Z.to_nat zeros repeat].
  unfold bind at 1. rewrite Read_nothing. cbn [fst app].
  rewrite Z.sub_0_r. fold C.
  rewrite (@wrap64_small e) by (unfold maxInt in *; lia).
  rewrite wrap64_small by (unfold maxInt in *; lia).
  unfold bind at 1, make at 1.
  destruct (Z.ltb_spec (Z.of_nat (length C) - e) 0) as [|_]; [lia|].
  unfold bind at 1, Seek at 1.
  destruct (Z.ltb_spec e 0) as [|_]; [lia|].
  cbn [file set_file emit data offset log buf conf].
  destruct (Z.eq_dec e (Z.of_nat (length C))) as [->|Hne].
  - rewrite Z.sub_diag. cbn [Z.to_nat zeros repeat].
    unfold bind at 1. rewrite Read_nothing. cbn [fst].
    rewrite rewrite_commits. eexists. split; [reflexivity|].
    unfold committed. cbn [set_file file data]. rewrite Nat2Z.id.
    symmetry. apply skipn_all.
  - unfold bind at 1. rewrite Read_some;
      cbn [file set_file emit data offset log skipn buf conf]; fold C;
      rewrite zeros_length, length_skipn; [|lia].
    replace (Z.to_nat (Z.of_nat (length C) - e)) with (length C - Z.to_nat e) by lia.
    rewrite Nat.min_id. cbn [fst].
    rewrite firstn_all2 by (rewrite length_skipn; lia).
    rewrite skipn_zeros, Nat.sub_diag. cbn [zeros repeat]. rewrite app_nil_r.
    rewrite rewrite_commits. eexists. split; reflexivity.
Qed.

Lemma Delete_from_start_removes_witness :
  exists ed',
    Delete 0 1 (NewEdit (B "abc") None) = (Ok tt, ed')
    /\ content ed' = B "bc".
Proof.
  apply (@Delete_from_start_removes (NewEdit (B "abc") None) 1%Z);
    cbn; unfold maxInt; lia.
Defined.

(** X3.  Up to the end of the file, and not from its start, [Delete] fails:
    [Delete(b, len(C))] with [0 < b <= len(C)] returns io.EOF, from the
    read at the end of the file into a buffer of [b] bytes, and commits
    nothing. *)
Theorem Delete_to_end_fails (ed : Editer) (b : Z) :
  (0 < b <= Z.of_nat (length (content ed)))%Z ->
  (Z.of_nat (length (content ed)) <= maxInt)%Z ->
  exists ed',
    Delete b (Z.of_nat (length (content ed))) ed = (Err EOF, ed')
    /\ untouched ed ed'.
Proof.
  intros Hb Hmax. unfold untouched, writes, content in *.
  set (C := data (file ed)) in *.
  unfold Delete, Stat. unfold bind at 1. cbn [fst snd].
  unfold bind at 1. rewrite Seek_start.
  unfold bind at 1, make at 1.
  destruct (Z.ltb_spec b 0) as [|_]; [lia|].
  unfold bind at 1. rewrite Read_some;
    cbn [file set_file emit data offset log skipn buf conf]; fold C;
    rewrite zeros_length; [|lia].
  cbn [fst].
  rewrite (@wrap64_small (Z.of_nat (length C) - b)) by (unfold maxInt in *; lia).
  rewrite wrap64_small by (unfold maxInt in *; lia).
  unfold bind at 1, make at 1.
  destruct (Z.ltb_spec (Z.of_nat (length C) - (Z.of_nat (length C) - b)) 0) as [|_];
    [lia|].
  unfold bind at 1, Seek at 1.
  destruct (Z.ltb_spec (Z.of_nat (length C)) 0) as [|_]; [lia|].
  cbn [file set_file emit data offset log buf conf]. rewrite Nat2Z.id.
  unfold bind at 1, Read.
  cbn [file set_file emit data offset log buf conf]. fold C.
  rewrite zeros_length, skipn_all. cbn [length]. rewrite Nat.min_0_r.
  destruct (Nat.eqb_spec
              (Z.to_nat (Z.of_nat (length C) - (Z.of_nat (length C) - b))) 0)
    as [H0|_]; [lia|].
  cbn [Nat.eqb]. eexists. split; [reflexivity|].
  unfold emit. cbn [file set_file data conf log offset]. rewrite !filter_snoc. cbn.
  rewrite !app_nil_r. repeat split.
Qed.

Lemma Delete_to_end_fails_witness :
  exists ed',
    Delete 2 3 (NewEdit (B "abc") None) = (Err EOF, ed')
    /\ untouched (NewEdit (B "abc") None) ed'.
Proof.
  apply (@Delete_to_end_fails (NewEdit (B "abc") None) 2%Z);
    cbn; unfold maxInt; lia.
Defined.

(** ** Steps that write nothing *)









(** A negative [begin] makes [make] panic, a negative [end] makes [Seek]
    fail: the file is as it was. *)
Example Delete_negative :
  fst (Delete (-1) 2 (NewEdit (B "abc") None)) = Panic
  /\ content (snd (Delete (-1) 2 (NewEdit (B "abc") None))) = B "abc"
  /\ fst (Delete 1 (-2) (NewEdit (B "abc") None)) = Err EINVAL
  /\ content (snd (Delete 1 (-2) (NewEdit (B "abc") None))) = B "abc".
Proof. repeat split. Qed.

Lemma bind_keeps {A C} (m : M A) (k : A -> M C) :
  keeps m -> (forall a, keeps (k a)) -> keeps (bind m k).
Proof.
  intros Hm Hk ed. unfold bind. specialize (Hm ed).
  destruct (m ed) as [[a|e| |] ed1]; cbn [snd] in *; try exact Hm.
  destruct (Hk a ed1) as (Hb & Hc). destruct Hm as (Hb' & Hc').
  split; congruence.
Qed.

Ltac keeps_step :=
  intros ed;
  repeat match goal with
         | |- context [if ?c then _ else _] => destruct c
         end;
  split; reflexivity.

Lemma Delete_keeps (b e : Z) : keeps (Delete b e).
Proof.
  unfold Delete.
  apply bind_keeps; [unfold Stat; keeps_step | intros size].
  apply bind_keeps; [unfold Seek; keeps_step | intros _].
  apply bind_keeps; [unfold make; keeps_step | intros fileData].
  apply bind_keeps; [unfold Read; keeps_step | intros r].
  apply bind_keeps; [unfold make; keeps_step | intros fileData'].
  apply bind_keeps; [unfold Seek; keeps_step | intros _].
  apply bind_keeps; [unfold Read; keeps_step | intros r'].
  intros ed. rewrite rewrite_commits. split; reflexivity.
Qed.

(** ** Append *)

Lemma Append_run (b : bytes) (ed : Editer) :
  Append b ed
  = (Ok tt,
     set_file ed
       (mkFile (content ed ++ b) (length (content ed) + length b)
          (log (file ed)
           ++ [EvSeek (Z.of_nat (length (content ed))); EvWrite b]))).
Proof.
  unfold Append, bind, SeekEnd, Write, ret, content.
  rewrite Z.add_0_r.
  destruct (Z.ltb_spec (Z.of_nat (length (data (file ed)))) 0) as [|_]; [lia|].
  cbn [file set_file emit data offset log buf conf]. rewrite Nat2Z.id.
  rewrite firstn_all, Nat.sub_diag, skipn_all2 by lia.
  unfold emit, set_file. cbn [zeros repeat app file data offset log buf conf].
  rewrite app_nil_r, <- app_assoc. reflexivity.
Qed.

(** X5.  [Append] adds the bytes at the end of the file wherever the cursor
    was, and leaves it at the new end; it reads nothing, and neither the
    reader nor the configuration changes.  [AppendString] does the same
    with the bytes of the string. *)
Theorem Append_appends (b : bytes) (s : string) (ed : Editer) :
  (exists ed',
      Append b ed = (Ok tt, ed')
      /\ content ed' = content ed ++ b
      /\ offset (file ed') = length (content ed ++ b)
      /\ reads ed' = reads ed
      /\ buf ed' = buf ed /\ conf ed' = conf ed)
  /\ (exists ed',
         AppendString s ed = (Ok tt, ed')
         /\ content ed' = content ed ++ B s).
Proof.
  split.
  - eexists. split; [apply Append_run|].
    unfold reads. cbn. rewrite length_app, filter_app. cbn.
    rewrite app_nil_r. repeat split.
  - eexists. split; [apply Append_run | reflexivity].
Qed.

(** X6.  Two calls of [Append] leave in the file what one call with the
    two slices joined leaves. *)
Theorem Append_twice (a b : bytes) (ed : Editer) :
  exists ed1 ed2,
    (Append a ;;; Append b) ed = (Ok tt, ed1)
    /\ Append (a ++ b) ed = (Ok tt, ed2)
    /\ content ed1 = content ed ++ a ++ b
    /\ content ed2 = content ed ++ a ++ b
    /\ offset (file ed1) = offset (file ed2).
Proof.
  do 2 eexists. split; [|split; [apply Append_run|]].
  - unfold bind. rewrite Append_run. apply Append_run.
  - cbn. rewrite <- app_assoc, !length_app. repeat split. lia.
Qed.

(** ** Every content is made of lines *)

Lemma lines_of (c : bytes) :
  exists (ls : list bytes) (t : bytes),
    c = concat ls ++ t /\ Forall is_line ls /\ unterminated t.
Proof.
  induction c as [|x c (ls & t & -> & Hls & Ht)].
  - exists [], []. repeat split; [constructor | intros []].
  - destruct (Byte.eqb x newline) eqn:Hx.
    + apply Byte.byte_dec_bl in Hx. subst x.
      exists ([newline] :: ls), t. repeat split; [|exact Ht].
      constructor; [|exact Hls]. exists []. split; [reflexivity | intros []].
    + assert (Hne : x <> newline).
      { intros ->. cbn in Hx. discriminate. }
      destruct ls as [|l ls].
      * exists [], (x :: t). repeat split; [constructor|].
        intros [H|H]; [congruence | exact (Ht H)].
      * inversion Hls as [|? ? (body & -> & Hbody) Hls']; subst.
        exists ((x :: body ++ [newline]) :: ls), t.
        repeat split; [|exact Ht].
        constructor; [|exact Hls'].
        exists (x :: body). split; [reflexivity|].
        intros [H|H]; [congruence | exact (Hbody H)].
Qed.

Lemma terminated_line (t : bytes) : unterminated t -> is_line (t ++ [newline]).
Proof. intros Ht. exists t. split; [reflexivity | exact Ht]. Qed.

Lemma concat_snoc {A} (ls : list (list A)) (l : list A) :
  concat (ls ++ [l]) = concat ls ++ l.
Proof. rewrite concat_app. cbn. rewrite app_nil_r. reflexivity. Qed.

Section AppendThenComment.

Context {E : Engine}.

(** X7.  After a newline is appended, what followed the last newline of the
    file is a line like the others: [Append] of a newline followed by
    [Comment] comments it when a pattern matches it, and it is in the
    content that is committed. *)
Theorem Append_newline_then_Comment (reLine : list string) (res : list Regexp)
    (c : ConfEditer.t) (ls : list bytes) (t : bytes) (ed : Editer) :
  conf ed = Some c ->
  ConfEditer.Comment c <> [] ->
  compileAll reLine = inl res ->
  buf ed = [] ->
  content ed = concat ls ++ t ->
  Forall is_line ls ->
  unterminated t ->
  let char := ConfEditer.Comment c ++ [space] in
  let ls' := ls ++ [t ++ [newline]] in
  exists ed',
    (Append [newline] ;;; Comment reLine) ed = (Ok tt, ed')
    /\ content ed'
       = if existsb (matchesAny res) ls'
         then concat (map (commented res char) ls')
         else content ed ++ [newline].
Proof.
  intros Hconf Hne Hcomp Hbuf Hcont Hls Ht char ls'.
  unfold bind. rewrite Append_run.
  set (ed1 := set_file ed _).
  assert (Hcont1 : content ed1 = concat ls' ++ []).
  { subst ls' ed1. rewrite app_nil_r.
    etransitivity; [|symmetry; apply (@concat_snoc byte)].
    rewrite app_assoc, <- Hcont. reflexivity. }
  assert (Hls1 : Forall is_line ls').
  { apply Forall_app. split; [exact Hls|].
    constructor; [apply terminated_line; exact Ht | constructor]. }
  destruct (@Comment_content _ reLine res c ls' [] ed1 Hconf Hne Hcomp Hbuf Hcont1 Hls1
              (fun H => H))
    as (ed' & Hrun & _ & _ & Hc).
  exists ed'. split; [exact Hrun|]. rewrite Hc. reflexivity.
Qed.

End AppendThenComment.

Lemma Append_newline_then_Comment_witness :
  exists ed',
    (Append [newline] ;;; Comment ["bar"%string]) (NewEdit (line "foo" ++ B "bar") hash)
    = (Ok tt, ed')
    /\ content ed' = line "foo" ++ line "# bar".
Proof.
  destruct (@Append_newline_then_Comment Fragment.engine ["bar"%string] [re "bar"]
              hashConf [line "foo"] (B "bar") (NewEdit (line "foo" ++ B "bar") hash)
              eq_refl ltac:(discriminate) eq_refl eq_refl eq_refl
              ltac:(lines_ok) ltac:(no_newline))
    as (ed' & Hrun & Hc).
  exists ed'. split; [exact Hrun | rewrite Hc; reflexivity].
Defined.

(** ** The operations return, and an error means nothing was written *)

Section Total.

Context {E : Engine}.

Lemma genReplace_loop_returns (r : list Replacer.t) (n : Z) :
  forall (c : bytes) (isNew : bool),
    (exists res, genReplace_loop r n c isNew = Ok res)
    \/ (exists e, genReplace_loop r n c isNew = Err e).
Proof.
  induction r as [|v r IH]; intros c isNew; cbn.
  - left. eexists. reflexivity.
  - destruct (Compile (Replacer.Search v)) as [reSearch|e];
      [|right; exists e; reflexivity].
    destruct (ReplaceAllFunc reSearch c (replFn (B (Replacer.Replace v))) (isNew, n))
      as [c' st].
    apply IH.
Qed.

Lemma Comment_sound (ps : list string) (ed : Editer) :
  buf ed = [] -> sound (Comment ps) ed.
Proof.
  intros Hbuf. unfold sound.
  assert (Hfail : forall e, Comment ps ed = (Err e, ed) ->
            exists o ed', Comment ps ed = (o, ed') /\ buf ed' = [] /\ conf ed' = conf ed
              /\ (o = Ok tt \/ exists e, o = Err e /\ untouched ed ed')).
  { intros e He. exists (Err e), ed. repeat split; [exact He | exact Hbuf|].
    right. exists e. split; [reflexivity | apply untouched_refl]. }
  destruct (conf ed) as [c|] eqn:Hconf;
    [|apply (Hfail errComment); unfold Comment; rewrite Hconf; reflexivity].
  destruct (ConfEditer.Comment c) as [|m0 m] eqn:Hm;
    [apply (Hfail errComment); unfold Comment; rewrite Hconf, Hm; reflexivity|].
  destruct (compileAll ps) as [res|err] eqn:Hcomp;
    [|apply (Hfail err); unfold Comment; rewrite Hconf, Hm, Hcomp; reflexivity].
  destruct (lines_of (content ed)) as (ls & t & Hcont & Hls & Ht).
  assert (Hne : ConfEditer.Comment c <> []) by (rewrite Hm; discriminate).
  destruct (@Comment_content _ ps res c ls t ed Hconf Hne Hcomp Hbuf Hcont Hls Ht)
    as (ed' & Hrun & Hb & Hc & _).
  exists (Ok tt), ed'. repeat split; auto. congruence.
Qed.

Lemma genReplaceAtLine_sound (r : list ReplacerAtLine.t) (n : Z) (ed : Editer) :
  buf ed = [] -> sound (genReplaceAtLine r n) ed.
Proof.
  intros Hbuf. unfold sound.
  destruct (Z.eq_dec n 0) as [->|Hn].
  { exists (Ok tt), ed. repeat split; auto. }
  destruct (compileAtLine r) as [all|err] eqn:Hcomp.
  - destruct (lines_of (content ed)) as (ls & t & Hcont & Hls & Ht).
    destruct (@genReplaceAtLine_run _ r n all ls t ed Hn Hcomp Hbuf Hcont Hls Ht)
      as (ed1 & (_ & Hc & _) & Hb & Hrun).
    eexists (Ok tt), _. split; [exact Hrun|]. cbn zeta.
    destruct (fst (scanLines (replaceLine all n) ls false [])); repeat split; auto.
  - unfold genReplaceAtLine. destruct (Z.eqb_spec n 0) as [|_]; [contradiction|].
    rewrite Hcomp. eexists (Err err), _. split; [reflexivity|].
    split; [exact Hbuf|]. split; [reflexivity|]. right. exists err.
    split; [reflexivity | apply Seek_start_untouched].
Qed.

Lemma genReplace_sound (r : list Replacer.t) (n : Z) (ed : Editer) :
  buf ed = [] -> sound (genReplace r n) ed.
Proof.
  intros Hbuf. unfold sound.
  destruct (Z.eq_dec n 0) as [->|Hn].
  { exists (Ok tt), ed. repeat split; auto. }
  destruct (@genReplace_run _ r n ed Hn) as (ed1 & (Hu & Hc & Hw) & Hb & _ & ->).
  destruct (genReplace_loop_returns r n (buf ed ++ content ed) false)
    as [([c' b] & ->) | (e & ->)].
  - eexists (Ok tt), _. split; [reflexivity|]. cbn [fst snd].
    destruct b; repeat split; auto.
  - exists (Err e), ed1. repeat split; auto. right. exists e. repeat split; auto.
Qed.

Lemma CommentOut_sound (ps : list string) (ed : Editer) :
  buf ed = [] -> sound (CommentOut ps) ed.
Proof.
  intros Hbuf. unfold CommentOut.
  assert (Hfail : sound (fun ed => (Err errComment, ed)) ed).
  { exists (Err errComment), ed. repeat split; auto.
    right. exists errComment. split; [reflexivity | apply untouched_refl]. }
  unfold sound in *. cbn beta in *.
  destruct (conf ed) as [c|] eqn:Hc; [|exact Hfail].
  destruct (length (ConfEditer.Comment c) =? 0); [exact Hfail|].
  rewrite <- Hc. unfold ReplaceAtLineN. apply genReplaceAtLine_sound. exact Hbuf.
Qed.


(** X9.  After any operation the reader holds nothing and the configuration
    is the same, as before it: the operations can follow one another on
    the same Editer, each reading the file as the one before has left it. *)
Theorem reader_left_empty (reLine : list string) (r : list Replacer.t)
    (rl : list ReplacerAtLine.t) (n b e : Z) (a : bytes) (ed : Editer) :
  buf ed = [] ->
  let kept (op : M unit) :=
    buf (snd (op ed)) = [] /\ conf (snd (op ed)) = conf ed in
  kept (Comment reLine)
  /\ kept (CommentOut reLine)
  /\ kept (Replace r)
  /\ kept (ReplaceN r n)
  /\ kept (ReplaceAtLine rl)
  /\ kept (ReplaceAtLineN rl n)
  /\ kept (Append a)
  /\ kept (Delete b e).
Proof.
  intros Hbuf kept.
  assert (H : forall op, sound op ed -> kept op).
  { intros op (o & ed' & Hrun & Hb & Hc & _). unfold kept. rewrite Hrun.
    split; assumption. }
  repeat match goal with |- _ /\ _ => split end.
  - apply H, Comment_sound; exact Hbuf.
  - apply H, CommentOut_sound; exact Hbuf.
  - apply H, genReplace_sound; exact Hbuf.
  - apply H, genReplace_sound; exact Hbuf.
  - apply H, genReplaceAtLine_sound; exact Hbuf.
  - apply H, genReplaceAtLine_sound; exact Hbuf.
  - unfold kept. rewrite Append_run. split; [exact Hbuf | reflexivity].
  - unfold kept. destruct (Delete_keeps b e ed) as (Hb & Hc).
    rewrite Hb, Hc. split; [exact Hbuf | reflexivity].
Qed.

End Total.


Lemma reader_left_empty_witness :
  buf (snd (Comment ["foo"%string] (NewEdit (line "foo") hash))) = []
  /\ conf (snd (Comment ["foo"%string] (NewEdit (line "foo") hash))) = hash.
Proof.
  exact (proj1 (@reader_left_empty Fragment.engine ["foo"%string] [] [] 1%Z 0%Z 0%Z []
                  (NewEdit (line "foo") hash) eq_refl)).
Defined.

(** ** A negative limit: every match is replaced *)

Lemma wrap64_pred (a j : Z) : wrap64 (wrap64 a - j) = wrap64 (a - j).
Proof.
  unfold wrap64.
  replace ((a + 2 ^ 63) mod 2 ^ 64 - 2 ^ 63 - j + 2 ^ 63)%Z
    with ((a + 2 ^ 63) mod 2 ^ 64 - j)%Z by lia.
  rewrite Zminus_mod_idemp_l. do 2 f_equal. lia.
Qed.

Lemma wrap64_negative (x : Z) : (- 2 ^ 64 < x < 0)%Z -> wrap64 x <> 0%Z.
Proof.
  intros Hx. unfold wrap64.
  destruct (Z_lt_le_dec x (- 2 ^ 63)) as [Hlow|Hhigh].
  - replace (x + 2 ^ 63)%Z with (x + 2 ^ 63 + 2 ^ 64 + (-1) * 2 ^ 64)%Z by lia.
    rewrite Z_mod_plus_full, Z.mod_small by lia. lia.
  - rewrite Z.mod_small by lia. lia.
Qed.

Section Unlimited.

Context {E : Engine}.

(** While the counter does not come to zero every match is replaced. *)
Lemma replaceAll_every (src repl : bytes) (ms : list (nat * nat)) :
  forall (k : Z) (last : nat) (out : bytes) (isNew : bool),
    (forall j, (0 <= j < Z.of_nat (length ms))%Z -> wrap64 (k - j) <> 0%Z) ->
    exists k' : Z,
      replaceAll src (replFn repl) ms last out (isNew, wrap64 k)
      = (out ++ replaceSpans src repl ms last,
         (isNew || negb (length ms =? 0), k')).
Proof.
  induction ms as [|[a0 a1] ms IH]; intros k last out isNew Hk.
  - exists (wrap64 k). cbn. rewrite orb_false_r. reflexivity.
  - cbn [replaceAll]. unfold replFn at 1. cbn [snd].
    destruct (Z.eqb_spec (wrap64 k) 0) as [H0|_].
    + exfalso. apply (Hk 0%Z); [cbn [length]; lia|]. rewrite Z.sub_0_r. exact H0.
    + rewrite wrap64_pred.
      destruct (IH (k - 1)%Z a1 ((out ++ slice src last a0) ++ repl) true) as (k' & ->).
      { intros j Hj. replace (k - 1 - j)%Z with (k - (j + 1))%Z by lia.
        apply Hk. cbn [length]. lia. }
      exists k'. cbn [replaceSpans length Nat.eqb negb].
      rewrite orb_true_r. cbn [orb]. rewrite <- !app_assoc. reflexivity.
Qed.

Lemma ReplaceAllFunc_every (re : Regexp) (src repl : bytes) (isNew : bool) (n : Z) :
  (- 2 ^ 63 <= n < 0)%Z ->
  (Z.of_nat (length (FindAllIndex re src)) <= maxInt)%Z ->
  exists k' : Z,
    ReplaceAllFunc re src (replFn repl) (isNew, n)
    = (replaceEvery re repl src,
       (isNew || negb (length (FindAllIndex re src) =? 0), k')).
Proof.
  intros Hn Hlen. unfold ReplaceAllFunc, replaceEvery.
  destruct (@replaceAll_every src repl (FindAllIndex re src) n 0 [] isNew)
    as (k' & Hk').
  { intros j Hj. apply wrap64_negative. unfold maxInt in Hlen. lia. }
  rewrite wrap64_small in Hk' by lia. exists k'. exact Hk'.
Qed.

Lemma replaceEvery_no_match (re : Regexp) (repl src : bytes) :
  FindAllIndex re src = [] -> replaceEvery re repl src = src.
Proof. intros H. unfold replaceEvery. rewrite H. reflexivity. Qed.

Lemma genReplace_loop_every (r : list Replacer.t) (n : Z) :
  (- 2 ^ 63 <= n < 0)%Z ->
  forall (all : list (Regexp * bytes)) (c : bytes) (isNew : bool),
    compileEntries r = inl all ->
    countable all c ->
    exists b : bool,
      genReplace_loop r n c isNew = Ok (contentAll all c, b)
      /\ (b = false -> isNew = false /\ contentAll all c = c).
Proof.
  intros Hn. induction r as [|v r IH]; intros all c isNew Hcomp Hcount; cbn in Hcomp.
  - injection Hcomp as <-. exists isNew. cbn. auto.
  - cbn [genReplace_loop].
    destruct (Compile (Replacer.Search v)) as [re0|] eqn:Hc; [|discriminate].
    destruct (compileEntries r) as [all0|] eqn:Hr; [|discriminate].
    injection Hcomp as <-. destruct Hcount as (Hlen & Hcount).
    destruct (@ReplaceAllFunc_every re0 c (B (Replacer.Replace v)) isNew n Hn Hlen)
      as (k' & ->).
    cbn [fst contentAll].
    destruct (IH all0 (replaceEvery re0 (B (Replacer.Replace v)) c)
                (isNew || negb (length (FindAllIndex re0 c) =? 0)) eq_refl Hcount)
      as (b & Hb & Hfalse).
    exists b. split; [exact Hb|].
    intros ->. destruct (Hfalse eq_refl) as (Hor & Hout).
    apply orb_false_elim in Hor. destruct Hor as (-> & Hz).
    apply negb_false_iff, length_zero_nil in Hz.
    split; [reflexivity|]. rewrite Hout. apply replaceEvery_no_match. exact Hz.
Qed.

(** X10.  [Replace], and [ReplaceN] with a negative limit, replace every
    match: the entries are applied in order, each to the content the
    entries before it have left, and each replaces all the matches of its
    pattern there, as long as a 64-bit counter can count them. *)
Theorem Replace_replaces_every_match (r : list Replacer.t)
    (all : list (Regexp * bytes)) (ed : Editer) :
  buf ed = [] ->
  compileEntries r = inl all ->
  countable all (content ed) ->
  (exists ed',
      Replace r ed = (Ok tt, ed') /\ content ed' = contentAll all (content ed))
  /\ (forall n, (- 2 ^ 63 <= n < 0)%Z ->
        exists ed',
          ReplaceN r n ed = (Ok tt, ed')
          /\ content ed' = contentAll all (content ed)).
Proof.
  intros Hbuf Hcomp Hcount.
  assert (H : forall n, (- 2 ^ 63 <= n < 0)%Z ->
            exists ed',
              genReplace r n ed = (Ok tt, ed')
              /\ content ed' = contentAll all (content ed)).
  { intros n Hn.
    destruct (@genReplace_run _ r n ed ltac:(lia)) as (ed1 & (Hu & _) & _ & _ & ->).
    rewrite Hbuf. cbn [app].
    destruct (@genReplace_loop_every r n Hn all (content ed) false Hcomp Hcount)
      as (b & -> & Hfalse).
    cbn [fst snd]. destruct b.
    - eexists. split; [reflexivity | apply content_committed].
    - exists ed1. split; [reflexivity|]. rewrite Hu. symmetry. apply (Hfalse eq_refl). }
  split; [apply H; lia | exact H].
Qed.

Lemma replaceLine_every (n : Z) (all : list (Regexp * Regexp * bytes)) :
  (- 2 ^ 63 <= n < 0)%Z ->
  forall (l : bytes) (isNew : bool),
    lineCountable all l ->
    replaceLine all n l isNew = (lineAll all l, isNew || lineAllNew all l).
Proof.
  intros Hn. induction all as [|[[reLine reSearch] repl] all IH]; intros l isNew Hcount.
  - cbn. rewrite orb_false_r. reflexivity.
  - cbn [replaceLine lineAll lineAllNew lineCountable] in *.
    destruct (Match reLine l); [|apply IH; exact Hcount].
    destruct Hcount as (Hlen & Hcount).
    destruct (@ReplaceAllFunc_every reSearch l repl isNew n Hn Hlen) as (k' & ->).
    cbn [fst]. rewrite IH by exact Hcount. rewrite orb_assoc. reflexivity.
Qed.

(** X11.  [ReplaceAtLine], and [ReplaceAtLineN] with a negative limit,
    replace every match in every line that ends with a newline: each entry
    whose line pattern matches the line, as the entries before it have left
    it, replaces all the matches of its search pattern in the line. *)
Theorem ReplaceAtLine_replaces_every_match (r : list ReplacerAtLine.t)
    (all : list (Regexp * Regexp * bytes)) (ls : list bytes) (t : bytes)
    (ed : Editer) :
  buf ed = [] ->
  compileAtLine r = inl all ->
  content ed = concat ls ++ t ->
  Forall is_line ls ->
  unterminated t ->
  Forall (lineCountable all) ls ->
  let after :=
    if existsb (lineAllNew all) ls then concat (map (lineAll all) ls)
    else content ed in
  (exists ed', ReplaceAtLine r ed = (Ok tt, ed') /\ content ed' = after)
  /\ (forall n, (- 2 ^ 63 <= n < 0)%Z ->
        exists ed', ReplaceAtLineN r n ed = (Ok tt, ed') /\ content ed' = after).
Proof.
  intros Hbuf Hcomp Hcont Hls Ht Hcount after.
  assert (H : forall n, (- 2 ^ 63 <= n < 0)%Z ->
            exists ed', genReplaceAtLine r n ed = (Ok tt, ed') /\ content ed' = after).
  { intros n Hn.
    destruct (@genReplaceAtLine_run _ r n all ls t ed ltac:(lia) Hcomp Hbuf Hcont Hls Ht)
      as (ed1 & (Hu & _) & _ & ->).
    rewrite (scanLines_map _ (lineAll all) (lineAllNew all)).
    - cbn [fst snd orb app]. unfold after.
      destruct (existsb (lineAllNew all) ls).
      + eexists. split; [reflexivity | apply content_committed].
      + exists ed1. split; [reflexivity | exact Hu].
    - intros l isNew Hl. apply replaceLine_every; [exact Hn|].
      rewrite Forall_forall in Hcount. apply Hcount. exact Hl. }
  split; [apply H; lia | exact H].
Qed.

End Unlimited.

Lemma Replace_replaces_every_match_witness :
  exists ed',
    Replace [Replacer.mk "a" "X"; Replacer.mk "b" "Y"] (NewEdit (B "a b a b") hash)
    = (Ok tt, ed')
    /\ content ed' = B "X Y X Y".
Proof.
  destruct (@Replace_replaces_every_match Fragment.engine
              [Replacer.mk "a" "X"; Replacer.mk "b" "Y"]
              [(re "a", B "X"); (re "b", B "Y")]
              (NewEdit (B "a b a b") hash) eq_refl eq_refl
              ltac:(unfold maxInt; cbn; lia))
    as ((ed' & Hrun & Hc) & _).
  exists ed'. split; [exact Hrun | rewrite Hc; reflexivity].
Defined.

Lemma ReplaceAtLine_replaces_every_match_witness :
  exists ed',
    ReplaceAtLine [ReplacerAtLine.mk "foo" "o" "0"]
      (NewEdit (line "foo" ++ line "boo") hash) = (Ok tt, ed')
    /\ content ed' = line "f00" ++ line "boo".
Proof.
  destruct (@ReplaceAtLine_replaces_every_match Fragment.engine
              [ReplacerAtLine.mk "foo" "o" "0"] [(re "foo", re "o", B "0")]
              [line "foo"; line "boo"] [] (NewEdit (line "foo" ++ line "boo") hash)
              eq_refl eq_refl eq_refl ltac:(lines_ok) ltac:(no_newline)
              ltac:(repeat constructor; unfold maxInt; cbn; lia))
    as ((ed' & Hrun & Hc) & _).
  exists ed'. split; [exact Hrun | rewrite Hc; reflexivity].
Defined.

(** ** The patterns of Comment, and what is written *)

Lemma existsb_same {A} (f g : A -> bool) (l : list A) :
  (forall x, f x = g x) -> existsb f l = existsb g l.
Proof.
  intros H. induction l as [|x l IH]; cbn; [reflexivity|]. rewrite H, IH. reflexivity.
Qed.

Lemma writes_committed (ed ed1 : Editer) (b : bytes) :
  untouched ed ed1 ->
  writes (committed ed1 b) = writes ed ++ [EvWrite b; EvTruncate (length b)].
Proof.
  intros (_ & _ & Hw). unfold writes in *. cbn. rewrite filter_app, Hw. reflexivity.
Qed.

Section Patterns.

Context {E : Engine}.

Lemma compileAll_compiled (ps : list string) (res : list Regexp) :
  compileAll ps = inl res ->
  forall p, In p ps -> exists re, In re res /\ Compile p = inl re.
Proof.
  revert res. induction ps as [|q ps IH]; cbn; intros res H p Hp; [destruct Hp|].
  destruct (Compile q) as [re0|] eqn:Hq; [|discriminate].
  destruct (compileAll ps) as [res0|]; [|discriminate].
  injection H as <-. destruct Hp as [->|Hp].
  - exists re0. split; [left; reflexivity | exact Hq].
  - destruct (IH res0 eq_refl p Hp) as (re1 & Hin & Hc).
    exists re1. split; [right; exact Hin | exact Hc].
Qed.

Lemma matchesAny_included (ps ps' : list string) (res res' : list Regexp) (l : bytes) :
  compileAll ps = inl res ->
  compileAll ps' = inl res' ->
  (forall p, In p ps -> In p ps') ->
  matchesAny res l = true -> matchesAny res' l = true.
Proof.
  intros Hc Hc' Hincl Hm. unfold matchesAny in *.
  apply existsb_exists in Hm. destruct Hm as (re0 & Hin & Hmatch).
  destruct (@compileAll_In _ ps res Hc re0 Hin) as (p & Hp & Hcp).
  destruct (@compileAll_compiled ps' res' Hc' p (Hincl p Hp)) as (re1 & Hin1 & Hcp1).
  apply existsb_exists. exists re1. split; [exact Hin1|]. congruence.
Qed.

(** X12.  The result of [Comment] depends on the set of the patterns only:
    given in another order, or some of them several times, patterns that
    compile leave the same content in the file.  A line that several
    patterns match is commented once. *)
Theorem Comment_any_order (ps ps' : list string) (res res' : list Regexp)
    (c : ConfEditer.t) (ed : Editer) :
  conf ed = Some c ->
  ConfEditer.Comment c <> [] ->
  compileAll ps = inl res ->
  compileAll ps' = inl res' ->
  (forall p, In p ps <-> In p ps') ->
  buf ed = [] ->
  fst (Comment ps ed) = Ok tt
  /\ fst (Comment ps' ed) = Ok tt
  /\ content (snd (Comment ps ed)) = content (snd (Comment ps' ed)).
Proof.
  intros Hconf Hne Hc Hc' Hsame Hbuf.
  destruct (lines_of (content ed)) as (ls & t & Hcont & Hls & Ht).
  destruct (@Comment_content _ ps res c ls t ed Hconf Hne Hc Hbuf Hcont Hls Ht)
    as (ed1 & -> & _ & _ & H1).
  destruct (@Comment_content _ ps' res' c ls t ed Hconf Hne Hc' Hbuf Hcont Hls Ht)
    as (ed2 & -> & _ & _ & H2).
  cbn [fst snd]. rewrite H1, H2.
  assert (Hm : forall l, matchesAny res l = matchesAny res' l).
  { intros l. apply Bool.eq_iff_eq_true. split.
    - apply (@matchesAny_included ps ps' res res' l Hc Hc'). intros p. apply Hsame.
    - apply (@matchesAny_included ps' ps res' res l Hc' Hc). intros p. apply Hsame. }
  repeat split.
  rewrite (@existsb_same _ _ _ ls Hm).
  destruct (existsb (matchesAny res') ls); [|reflexivity].
  f_equal. apply map_ext. intros l. unfold commented. rewrite Hm. reflexivity.
Qed.

(** X13.  [Comment] writes when a pattern matches a line and only then, and
    then in one go: one write of the whole new content, and one truncation
    to its length. *)
Theorem Comment_commits_once (reLine : list string) (res : list Regexp)
    (c : ConfEditer.t) (ls : list bytes) (t : bytes) (ed : Editer) :
  conf ed = Some c ->
  ConfEditer.Comment c <> [] ->
  compileAll reLine = inl res ->
  buf ed = [] ->
  content ed = concat ls ++ t ->
  Forall is_line ls ->
  unterminated t ->
  let out := concat (map (commented res (ConfEditer.Comment c ++ [space])) ls) in
  exists ed',
    Comment reLine ed = (Ok tt, ed')
    /\ writes ed'
       = writes ed
         ++ (if existsb (matchesAny res) ls
             then [EvWrite out; EvTruncate (length out)]
             else []).
Proof.
  intros Hconf Hne Hcomp Hbuf Hcont Hls Ht out.
  destruct (@Comment_run _ reLine res c ls t ed Hconf Hne Hcomp Hbuf Hcont Hls Ht)
    as (ed1 & Hu & _ & ->).
  fold out. destruct (existsb (matchesAny res) ls).
  - eexists. split; [reflexivity | apply writes_committed; exact Hu].
  - exists ed1. split; [reflexivity|]. rewrite app_nil_r. apply Hu.
Qed.

Lemma genReplace_loop_flag (r : list Replacer.t) (n : Z) :
  engine_ok E ->
  (0 < n <= maxInt)%Z ->
  forall (all : list (Regexp * bytes)) (c : bytes) (isNew : bool),
    compileEntries r = inl all ->
    genReplace_loop r n c isNew
    = Ok (contentOut all (Z.to_nat n) c, isNew || contentNew all (Z.to_nat n) c).
Proof.
  intros Hok Hn. induction r as [|v r IH]; intros all c isNew Hcomp; cbn in Hcomp.
  - injection Hcomp as <-. cbn. rewrite orb_false_r. reflexivity.
  - cbn [genReplace_loop].
    destruct (Compile (Replacer.Search v)) as [re0|] eqn:Hc; [|discriminate].
    destruct (compileEntries r) as [all0|] eqn:Hr; [|discriminate].
    injection Hcomp as <-.
    destruct (@ReplaceAllFunc_budget _ re0 c (B (Replacer.Replace v)) isNew n Hok
                ltac:(lia)) as (k' & ->).
    cbn [fst contentOut contentNew]. rewrite (IH all0 _ _ eq_refl), orb_assoc.
    reflexivity.
Qed.

(** X14.  [ReplaceN] with a limit [n > 0] writes when an entry finds a
    match in the content it is applied to and only then, whatever the
    replacement: also when the replacement is the text matched and the
    content committed is the content read. *)
Theorem ReplaceN_writes_when_matched (r : list Replacer.t)
    (all : list (Regexp * bytes)) (n : Z) (ed : Editer) :
  engine_ok E ->
  (0 < n <= maxInt)%Z ->
  buf ed = [] ->
  compileEntries r = inl all ->
  let out := contentOut all (Z.to_nat n) (content ed) in
  exists ed',
    ReplaceN r n ed = (Ok tt, ed')
    /\ writes ed'
       = writes ed
         ++ (if contentNew all (Z.to_nat n) (content ed)
             then [EvWrite out; EvTruncate (length out)]
             else []).
Proof.
  intros Hok Hn Hbuf Hcomp out.
  destruct (@genReplace_run _ r n ed ltac:(lia)) as (ed1 & Hu & _ & _ & Hrun).
  unfold ReplaceN. rewrite Hrun, Hbuf. cbn [app].
  rewrite (@genReplace_loop_flag r n Hok Hn all (content ed) false Hcomp).
  cbn [fst snd orb]. fold out.
  destruct (contentNew all (Z.to_nat n) (content ed)).
  - eexists. split; [reflexivity | apply writes_committed; exact Hu].
  - exists ed1. split; [reflexivity|]. rewrite app_nil_r. apply Hu.
Qed.

End Patterns.

Lemma Comment_any_order_witness :
  fst (Comment ["foo"; "bar"]%string (NewEdit (line "foo bar" ++ line "bar") hash)) = Ok tt
  /\ fst (Comment ["bar"; "foo"; "bar"]%string
            (NewEdit (line "foo bar" ++ line "bar") hash)) = Ok tt
  /\ content (snd (Comment ["foo"; "bar"]%string
                     (NewEdit (line "foo bar" ++ line "bar") hash)))
     = content (snd (Comment ["bar"; "foo"; "bar"]%string
                       (NewEdit (line "foo bar" ++ line "bar") hash))).
Proof.
  apply (@Comment_any_order Fragment.engine ["foo"; "bar"]%string
           ["bar"; "foo"; "bar"]%string [re "foo"; re "bar"]
           [re "bar"; re "foo"; re "bar"] hashConf
           (NewEdit (line "foo bar" ++ line "bar") hash)
           eq_refl ltac:(discriminate) eq_refl eq_refl);
    [|reflexivity].
  intros p. cbn. tauto.
Defined.

Lemma Comment_commits_once_witness :
  exists ed',
    Comment ["foo"%string] (NewEdit (line "foo" ++ line "bar") hash) = (Ok tt, ed')
    /\ writes ed'
       = [EvWrite (line "# foo" ++ line "bar"); EvTruncate 10].
Proof.
  destruct (@Comment_commits_once Fragment.engine ["foo"%string] [re "foo"] hashConf
              [line "foo"; line "bar"] [] (NewEdit (line "foo" ++ line "bar") hash)
              eq_refl ltac:(discriminate) eq_refl eq_refl eq_refl
              ltac:(lines_ok) ltac:(no_newline))
    as (ed' & Hrun & Hw).
  exists ed'. split; [exact Hrun | rewrite Hw; reflexivity].
Defined.

Lemma ReplaceN_writes_when_matched_witness :
  exists ed',
    ReplaceN [Replacer.mk "a" "a"] 1 (NewEdit (B "aa") hash) = (Ok tt, ed')
    /\ writes ed' = [EvWrite (B "aa"); EvTruncate 2].
Proof.
  destruct (@ReplaceN_writes_when_matched Fragment.engine [Replacer.mk "a" "a"]
              [(re "a", B "a")] 1%Z (NewEdit (B "aa") hash)
              Fragment_engine_ok ltac:(unfold maxInt; lia) eq_refl eq_refl)
    as (ed' & Hrun & Hw).
  exists ed'. split; [exact Hrun | rewrite Hw; reflexivity].
Defined.

(** ** The functions of the package on a named file *)

Section OnFile.

Context {E : Engine}.

Variable Backup : string -> fileutil.FS -> option fileutil.failure * fileutil.FS.
Variable closeError : string -> option fileutil.failure.

Lemma NewEdit_missing (filename : string) (conf : option ConfEditer.t) (fs : fileutil.FS) :
  fs filename = None ->
  noBackup conf ->
  fileutil.NewEdit Backup filename conf fs = (inr fileutil.ENOENT, fs).
Proof.
  intros Hfs Hconf. unfold fileutil.NewEdit.
  destruct conf as [c|]; cbn in Hconf; [rewrite Hconf; cbn|]; rewrite Hfs; reflexivity.
Qed.

Lemma NewEdit_opens (filename : string) (conf : option ConfEditer.t) (fs : fileutil.FS)
    (c : bytes) :
  fs filename = Some c ->
  noBackup conf ->
  fileutil.NewEdit Backup filename conf fs
  = (inl (mkEditer (mkFile c 0 []) [] conf), fs).
Proof.
  intros Hfs Hconf. unfold fileutil.NewEdit.
  destruct conf as [c0|]; cbn in Hconf; [rewrite Hconf; cbn|]; rewrite Hfs; reflexivity.
Qed.

Lemma NewEdit_backup_fails (filename : string) (c : ConfEditer.t) (fs fs1 : fileutil.FS)
    (e : fileutil.failure) :
  Z.land (ConfEditer.Mode c) fileutil.ModBackup <> 0%Z ->
  Backup filename fs = (Some e, fs1) ->
  fileutil.NewEdit Backup filename (Some c) fs = (inr e, fs1).
Proof.
  intros Hmode Hb. unfold fileutil.NewEdit.
  destruct (Z.eqb_spec (Z.land (ConfEditer.Mode c) fileutil.ModBackup) 0) as [H|_];
    [contradiction|].
  cbn [negb]. rewrite Hb. reflexivity.
Qed.



(** X15.  On a file that does not exist, every function of the package that
    edits a named file returns the error of the opening of the file, and
    the files are as they were (no backup being asked for): also
    [ReplaceN] and [ReplaceAtLineN] with the limit 0, and [Append] of no
    byte, which open the file before anything else. *)
Theorem missing_file_is_an_error (filename : string) (conf : option ConfEditer.t)
    (reLine : list string) (r : list Replacer.t) (rl : list ReplacerAtLine.t)
    (n mode : Z) (b : bytes) (fs : fileutil.FS) :
  fs filename = None ->
  noBackup conf ->
  Z.land mode fileutil.ModBackup = 0%Z ->
  fileutil.CommentM Backup closeError filename conf reLine fs = (fileutil.Failed fileutil.ENOENT, fs)
  /\ fileutil.CommentOutM Backup closeError filename conf reLine fs = (fileutil.Failed fileutil.ENOENT, fs)
  /\ fileutil.Replace Backup closeError filename conf r fs = (fileutil.Failed fileutil.ENOENT, fs)
  /\ fileutil.ReplaceN Backup closeError filename conf r n fs = (fileutil.Failed fileutil.ENOENT, fs)
  /\ fileutil.ReplaceAtLine Backup closeError filename conf rl fs = (fileutil.Failed fileutil.ENOENT, fs)
  /\ fileutil.ReplaceAtLineN Backup closeError filename conf rl n fs
     = (fileutil.Failed fileutil.ENOENT, fs)
  /\ fileutil.Append Backup closeError filename mode b fs = (fileutil.Failed fileutil.ENOENT, fs).
Proof.
  intros Hfs Hconf Hmode.
  unfold fileutil.CommentM, fileutil.CommentOutM, fileutil.Replace, fileutil.ReplaceN,
    fileutil.ReplaceAtLine, fileutil.ReplaceAtLineN, fileutil.Append.
  rewrite !(@NewEdit_missing filename conf fs Hfs Hconf).
  rewrite (@NewEdit_missing filename (Some (ConfEditer.mk [] mode)) fs Hfs Hmode).
  repeat split.
Qed.



(** X17.  When the configuration asks for a backup and [Backup] fails, the
    call returns the error of [Backup]: the file is not opened and the
    operation is not applied; the files are as [Backup] has left them. *)
Theorem backup_failure_stops_the_call (filename : string) (c : ConfEditer.t)
    (reLine : list string) (r : list Replacer.t) (rl : list ReplacerAtLine.t)
    (n : Z) (b : bytes) (fs fs1 : fileutil.FS) (e : fileutil.failure) :
  Z.land (ConfEditer.Mode c) fileutil.ModBackup <> 0%Z ->
  Backup filename fs = (Some e, fs1) ->
  fileutil.CommentM Backup closeError filename (Some c) reLine fs = (fileutil.Failed e, fs1)
  /\ fileutil.CommentOutM Backup closeError filename (Some c) reLine fs = (fileutil.Failed e, fs1)
  /\ fileutil.Replace Backup closeError filename (Some c) r fs = (fileutil.Failed e, fs1)
  /\ fileutil.ReplaceN Backup closeError filename (Some c) r n fs = (fileutil.Failed e, fs1)
  /\ fileutil.ReplaceAtLine Backup closeError filename (Some c) rl fs = (fileutil.Failed e, fs1)
  /\ fileutil.ReplaceAtLineN Backup closeError filename (Some c) rl n fs
     = (fileutil.Failed e, fs1)
  /\ fileutil.Append Backup closeError filename (ConfEditer.Mode c) b fs
     = (fileutil.Failed e, fs1).
Proof.
  intros Hmode Hb.
  unfold fileutil.CommentM, fileutil.CommentOutM, fileutil.Replace, fileutil.ReplaceN,
    fileutil.ReplaceAtLine, fileutil.ReplaceAtLineN, fileutil.Append.
  rewrite !(@NewEdit_backup_fails filename c fs fs1 e Hmode Hb).
  rewrite (@NewEdit_backup_fails filename (ConfEditer.mk [] (ConfEditer.Mode c)) fs fs1 e
             Hmode Hb).
  repeat split.
Qed.

(** X18.  [Append] on a named file that exists adds the bytes at its end
    and changes no other file; it tells the error of the closing of the
    file if there is one, the bytes being in the file all the same.
    [AppendString] does so with the bytes of the string. *)
Theorem Append_on_file (filename : string) (mode : Z) (b : bytes) (s : string)
    (fs : fileutil.FS) (c : bytes) :
  fs filename = Some c ->
  Z.land mode fileutil.ModBackup = 0%Z ->
  let told := match closeError filename with
              | Some e2 => fileutil.Failed e2
              | None => fileutil.Done
              end in
  fileutil.Append Backup closeError filename mode b fs
  = (told, fileutil.store fs filename (c ++ b))
  /\ fileutil.AppendString Backup closeError filename mode s fs
     = (told, fileutil.store fs filename (c ++ B s)).
Proof.
  intros Hfs Hmode told.
  unfold fileutil.AppendString, fileutil.Append.
  rewrite (@NewEdit_opens filename (Some (ConfEditer.mk [] mode)) fs c Hfs Hmode).
  rewrite !Append_run. split; reflexivity.
Qed.

End OnFile.

Lemma missing_file_is_an_error_witness :
  fileutil.ReplaceN copyBackup closes "hosts" hash [Replacer.mk "a" "b"] 0
    (oneFile "passwd" (line "foo"))
  = (fileutil.Failed fileutil.ENOENT, oneFile "passwd" (line "foo"))
  /\ fileutil.Append copyBackup closes "hosts" 0 []
       (oneFile "passwd" (line "foo"))
     = (fileutil.Failed fileutil.ENOENT, oneFile "passwd" (line "foo")).
Proof.
  destruct (@missing_file_is_an_error Fragment.engine copyBackup closes
              "hosts"%string hash [] [Replacer.mk "a" "b"] [] 0%Z 0%Z []
              (oneFile "passwd" (line "foo")) eq_refl eq_refl eq_refl)
    as (_ & _ & _ & Hr & _ & _ & Ha).
  split; [exact Hr | exact Ha].
Defined.


Lemma backup_failure_stops_the_call_witness :
  fileutil.CommentM failingBackup closes "hosts"
    (Some (ConfEditer.mk (B "#") 1)) ["foo"%string] (oneFile "hosts" (line "foo"))
  = (fileutil.Failed (fileutil.ofSystem "no space left on device"),
     oneFile "hosts" (line "foo")).
Proof.
  destruct (@backup_failure_stops_the_call Fragment.engine failingBackup closes
              "hosts"%string (ConfEditer.mk (B "#") 1) ["foo"%string] [] [] 0%Z []
              (oneFile "hosts" (line "foo")) (oneFile "hosts" (line "foo"))
              (fileutil.ofSystem "no space left on device")
              ltac:(discriminate) eq_refl)
    as (Hc & _).
  exact Hc.
Defined.

Lemma Append_on_file_witness :
  fileutil.Append copyBackup closeFails "hosts" 0 (line "bar")
    (oneFile "hosts" (line "foo"))
  = (fileutil.Failed (fileutil.ofSystem "input/output error"),
     fileutil.store (oneFile "hosts" (line "foo")) "hosts" (line "foo" ++ line "bar")).
Proof.
  exact (proj1 (@Append_on_file copyBackup closeFails "hosts"%string 0%Z (line "bar")
                  EmptyString (oneFile "hosts" (line "foo")) (line "foo")
                  eq_refl eq_refl)).
Defined.
